(** * patina-devops: the QEMU validation supervisor and the build-error extractor

    A shallow embedding of two scripts of the repository,

    - [.github/actions/run-patina-qemu-validation/run_qemu_validation.py]
      (module [QemuValidation]) and
    - [.github/actions/extract-build-errors/extract_build_errors.py]
      (module [ExtractBuildErrors]),

    with the properties their specification states about them, and
    further properties read off the code.

    Conventions of the embedding.

    - Python [str] and [bytes] are [string] (a sequence of 8-bit characters);
      character classes ([str.lower], [str.strip], the regular expressions'
      [\s], [\d], [\w]) and the line boundaries of [str.splitlines] are the
      ASCII ones, characters above 127 belong to no class and are left
      alone by [lower].  On ASCII text this is what Python does; where a
      property rests on which characters [\s], [\d], [\w] or the line
      boundaries take in, it is stated for ASCII text.
    - A function that can raise returns [result]; the exceptions are [exn].
    - Code with effects passes the [world] explicitly: files, timing
      documents, directories, the console (the writes and flushes made to
      [sys.stderr.buffer]), the table of live process groups, the heap of
      [Popen] handles, the requests made to the operating system and the
      monotonic clock.  File system operations that the code performs succeed
      unless the model says otherwise ([mkdir] over a regular file, opening a
      directory for appending or for writing).  The clock advances in the
      bounded waits and joins only.  What the program cannot decide (how the
      child behaves, how the two relay threads interleave) is an oracle
      record given to [main].
    - A Python [float] that holds a duration is the rational number it denotes
      ([Q]); [divmod], [round] and the [.Nf] format are computed exactly on
      it, with ties going to the even neighbour as Python's correctly rounded
      conversions do. *)

From Stdlib Require Import ZArith QArith Qround Qminmax Lqa.
From Stdlib Require Import String Ascii DecimalString DecimalPos.
From stdpp Require Import base option list gmap strings.
From Equations Require Import Equations.

Local Open Scope string_scope.
Local Open Scope Z_scope.
Local Open Scope list_scope.

(** ** A small Python runtime *)

Module Py.

(** Values a JSON document puts in a configuration: [None], booleans,
    integers and strings. *)
Inductive value :=
| VNone
| VBool (b : bool)
| VInt (z : Z)
| VStr (s : string).

#[global] Instance value_eq_dec : EqDecision value.
Proof. solve_decision. Defined.

Inductive exn :=
| KeyError (key : string)
| TypeError
| ValueError
| OSError
| ProcessLookupError
| TimeoutExpired.

Inductive result (A : Type) :=
| Ok (a : A)
| Raise (e : exn).
Arguments Ok {A} a.
Arguments Raise {A} e.

#[global] Instance result_ret : MRet result := fun _ a => Ok a.
#[global] Instance result_bind : MBind result := fun _ _ k r =>
  match r with
  | Ok a => k a
  | Raise e => Raise e
  end.

(** [str.lower()] *)
Definition lower_ascii (c : ascii) : ascii :=
  let n := N_of_ascii c in
  if ((65 <=? n) && (n <=? 90))%N then ascii_of_N (n + 32) else c.

Fixpoint lower (s : string) : string :=
  match s with
  | EmptyString => EmptyString
  | String c r => String (lower_ascii c) (lower r)
  end.

(** [str(int)] *)
Definition str_int (z : Z) : string := NilZero.string_of_int (Z.to_int z).

(** [str(value)] *)
Definition str (v : value) : string :=
  match v with
  | VNone => "None"
  | VBool true => "True"
  | VBool false => "False"
  | VInt z => str_int z
  | VStr s => s
  end.

(** [bool(value)]: the truth value an [if] tests. *)
Definition truthy (v : value) : bool :=
  match v with
  | VNone => false
  | VBool b => b
  | VInt z => negb (z =? 0)
  | VStr s => negb (String.eqb s "")
  end.

(** The line feed. *)
Definition nl : string := String "010" EmptyString.

(** A [dict] with string keys; [d[k]] raises [KeyError] on a missing key,
    [d.get(k)] gives [None], [d.setdefault(k, v)] only fills a hole. *)
Definition getitem (d : gmap string value) (k : string) : result value :=
  match d !! k with
  | Some v => Ok v
  | None => Raise (KeyError k)
  end.

Definition get (d : gmap string value) (k : string) : value :=
  default VNone (d !! k).

Definition setdefault (d : gmap string value) (k : string) (v : value)
  : gmap string value :=
  match d !! k with
  | Some _ => d
  | None => <[k := v]> d
  end.

End Py.

Import Py.

(** ** run_qemu_validation.py *)

Module QemuValidation.

Definition SUBPROCESS_TIMEOUT_SECONDS : Z := 300.
Definition THREAD_JOIN_TIMEOUT_SECONDS : Z := 15.

Definition _DEFAULTS : list (string * value) :=
  [ ("build_target", VStr "DEBUG");
    ("qemu_path", VStr "");
    ("no_build", VBool false);
    ("shutdown_after_run", VBool false) ].

Definition _coerce_bool (v : value) : bool :=
  match v with
  | VBool b => b
  | _ => String.eqb (lower (str v)) "true"
  end.

(** [_load_config] after the JSON text has been parsed into [raw]. *)
Definition _load_config (raw : gmap string value)
  : result (gmap string value) :=
  let raw := foldl (fun d kv => setdefault d kv.1 kv.2) raw _DEFAULTS in
  nb ← getitem raw "no_build";
  let raw := <["no_build" := VBool (_coerce_bool nb)]> raw in
  sar ← getitem raw "shutdown_after_run";
  let raw := <["shutdown_after_run" := VBool (_coerce_bool sar)]> raw in
  mret raw.

(** *** Streams and sinks *)

(** The child's end of a pipe as the relay sees it: the bytes not read
    yet (the child's output up to end-of-stream) and whether the handle
    has been closed on this side. *)
Record istream := {
  unread : string;
  stream_closed : bool;
}.

(** What a writer does to a binary file object. *)
Inductive io_event :=
| Write (data : string)
| Flush.

Record sink := {
  sink_events : list io_event;
  sink_closed : bool;
}.

(** The first line of [s], its newline included, and what follows it. *)
Fixpoint take_line (s : string) : string * string :=
  match s with
  | EmptyString => (EmptyString, EmptyString)
  | String c r =>
      if Ascii.eqb c "010" then (String c EmptyString, r)
      else let '(l, r') := take_line r in (String c l, r')
  end.

(** [stream.readline()]: the next line, or the empty string at
    end-of-stream. *)
Definition readline (st : istream) : result (string * istream) :=
  if stream_closed st then Raise ValueError
  else
    let '(line, rest) := take_line (unread st) in
    Ok (line, {| unread := rest; stream_closed := false |}).

Definition stream_close (st : istream) : istream :=
  {| unread := unread st; stream_closed := true |}.

Definition sink_write (k : sink) (data : string) : result sink :=
  if sink_closed k then Raise ValueError
  else Ok {| sink_events := sink_events k ++ [Write data];
             sink_closed := false |}.

Definition sink_flush (k : sink) : result sink :=
  if sink_closed k then Raise ValueError
  else Ok {| sink_events := sink_events k ++ [Flush];
             sink_closed := false |}.

(** The body of the loop of [_stream_reader], lines 127-131. *)
Definition relay_line (line : string) (log_file_handle : sink)
    (forward_to : option sink) : result (sink * option sink) :=
  log_file_handle ← sink_write log_file_handle line;
  log_file_handle ← sink_flush log_file_handle;
  match forward_to with
  | Some fwd =>
      fwd ← sink_write fwd line;
      fwd ← sink_flush fwd;
      mret (log_file_handle, Some fwd)
  | None => mret (log_file_handle, None)
  end.

Definition inspect {A : Type} (a : A) : {b : A | a = b} :=
  exist _ a eq_refl.

(** [for line in iter(stream.readline, b""): ...], lines 126-131. *)
Equations? relay_loop (st : istream) (log_file_handle : sink)
    (forward_to : option sink) : result (istream * sink * option sink)
    by wf (String.length (unread st)) lt :=
  relay_loop st log fwd with inspect (readline st) := {
    | exist _ (Raise e) _ => Raise e
    | exist _ (Ok (line, st')) Hread with inspect (String.eqb line "") := {
        | exist _ true _ => Ok (st', log, fwd)
        | exist _ false Hline with relay_line line log fwd := {
            | Raise e => Raise e
            | Ok (log', fwd') => relay_loop st' log' fwd' } } }.
Proof.
  assert (shorter : ∀ s l r, take_line s = (l, r) → l ≠ EmptyString →
                    (String.length r < String.length s)%nat).
  { clear. intros s. induction s as [|c s IH]; intros l r; simpl.
    - intros [= <- <-]. congruence.
    - destruct (Ascii.eqb c "010").
      + intros [= <- <-] _. lia.
      + destruct (take_line s) as [l' r'] eqn:E. intros [= <- <-] _.
        destruct (decide (l' = EmptyString)) as [->|Hl].
        * destruct s as [|a s]; simpl in E.
          -- injection E as <-. simpl. lia.
          -- destruct (Ascii.eqb a "010"); [discriminate|].
             destruct (take_line s); discriminate.
        * specialize (IH l' r' eq_refl Hl). lia. }
  unfold readline in Hread. destruct (stream_closed st); [discriminate|].
  destruct (take_line (unread st)) as [l r] eqn:E.
  injection Hread as <- <-. simpl.
  apply (shorter _ l r E). intros ->. discriminate.
Qed.

Definition _stream_reader (stream : istream) (log_file_handle : sink)
    (forward_to : option sink) : result (istream * sink * option sink) :=
  '(stream, log_file_handle, forward_to) ←
    relay_loop stream log_file_handle forward_to;
  mret (stream_close stream, log_file_handle, forward_to).

(** What the interpreter and the platform provide: [sys.platform],
    [sys.executable] and the [pathlib] operations [main] uses, whose
    results depend on the path flavour of the platform.
    [path_join p c] is [str(Path(p) / c)], [path_parents p] lists
    [Path(p).parent] and its ancestors, nearest first, and
    [path_with_suffix p s] is [str(Path(p).with_suffix(s))]. *)
Record host := {
  sys_platform : string;
  sys_executable : string;
  path_join : string → string → string;
  path_parents : string → list string;
  path_with_suffix : string → string → string;
}.

(** [pathlib.Path(v)] accepts a string only. *)
Definition as_path (v : value) : result string :=
  match v with
  | VStr s => Ok s
  | _ => Raise TypeError
  end.

(** [main], lines 183-200: the child's command line. *)
Definition main_cmd (h : host) (config : gmap string value)
    (script : string) : result (list value) :=
  build_target ← getitem config "build_target";
  fw_patch_repo ← getitem config "fw_patch_repo";
  patina_dxe_core_repo ← getitem config "patina_dxe_core_repo";
  platform ← getitem config "platform";
  pre_compiled_rom ← getitem config "pre_compiled_rom";
  toolchain ← getitem config "toolchain";
  let cmd :=
    [ VStr (sys_executable h);
      VStr script;
      VStr "--build-target"; build_target;
      VStr "--fw-patch-repo"; fw_patch_repo;
      VStr "--patina-dxe-core-repo"; patina_dxe_core_repo;
      VStr "--platform"; platform;
      VStr "--pre-compiled-rom"; pre_compiled_rom;
      VStr "--toolchain"; toolchain ] in
  cmd ← (if truthy (get config "qemu_path")
         then qemu_path ← getitem config "qemu_path";
              mret (cmd ++ [VStr "--qemu-path"; qemu_path])
         else mret cmd);
  let cmd := cmd ++ [VStr "--headless"] in
  let cmd := if truthy (get config "no_build")
             then cmd ++ [VStr "--no-build"] else cmd in
  let cmd := if truthy (get config "shutdown_after_run")
             then cmd ++ [VStr "--shutdown-after-run"] else cmd in
  mret cmd.

(** The options of a command line as the child's argument parser reads
    them: each flag, and for a flag that takes a value the argument after
    it.  This is how the properties below say that a command line
    contains a flag. *)
Definition takes_value (a : value) : bool :=
  bool_decide (a ∈ [ VStr "--build-target"; VStr "--fw-patch-repo";
                     VStr "--patina-dxe-core-repo"; VStr "--platform";
                     VStr "--pre-compiled-rom"; VStr "--toolchain";
                     VStr "--qemu-path" ]).

Fixpoint cli_options (args : list value) : list (value * option value) :=
  match args with
  | [] => []
  | a :: rest =>
      if takes_value a then
        match rest with
        | [] => [(a, None)]
        | v :: rest' => (a, Some v) :: cli_options rest'
        end
      else (a, None) :: cli_options rest
  end.

Definition cli_flags (cmd : list value) : list value :=
  (cli_options (drop 2 cmd)).*1.

(** The three optional parts of the command line. *)
Definition qemu_path_option (config : gmap string value)
  : list (value * option value) :=
  if truthy (get config "qemu_path")
  then [(VStr "--qemu-path", config !! "qemu_path")] else [].

Definition switch_option (config : gmap string value) (key flag : string)
  : list (value * option value) :=
  if truthy (get config key) then [(VStr flag, None)] else [].

(** The keys [main] reads with [config[...]] for the command line and
    that have no default. *)
Definition required_keys : list string :=
  [ "fw_patch_repo"; "patina_dxe_core_repo"; "platform";
    "pre_compiled_rom"; "toolchain" ].

(** *** The world around the supervisor *)

(** A [subprocess.Popen] object: the child's process identifier and the
    exit-status slot, empty until a wait has collected the status. *)
Record popen := {
  pid : Z;
  returncode : option Z;
}.

(** The requests [_kill_process_tree] makes to the operating system. *)
Inductive syscall :=
| Killpg (pgid : Z) (sig : Z)
| Taskkill (root : Z).

(** The dictionary [_write_timing] serialises. *)
Record timing_data := {
  elapsed_seconds : Q;
  elapsed_display : string;
}.

Record world := {
  files : gmap string string;
  timings : gmap string timing_data;
  dirs : gset string;
  console : list io_event;
  pgroups : gset Z;
  handles : list popen;
  syscalls : list syscall;
  now : Q;
}.

Definition set_files (f : gmap string string) (w : world) : world :=
  {| files := f; timings := timings w; dirs := dirs w;
     console := console w; pgroups := pgroups w; handles := handles w;
     syscalls := syscalls w; now := now w |}.

Definition set_timings (t : gmap string timing_data) (w : world) : world :=
  {| files := files w; timings := t; dirs := dirs w;
     console := console w; pgroups := pgroups w; handles := handles w;
     syscalls := syscalls w; now := now w |}.

Definition set_dirs (d : gset string) (w : world) : world :=
  {| files := files w; timings := timings w; dirs := d;
     console := console w; pgroups := pgroups w; handles := handles w;
     syscalls := syscalls w; now := now w |}.

Definition set_console (k : list io_event) (w : world) : world :=
  {| files := files w; timings := timings w; dirs := dirs w;
     console := k; pgroups := pgroups w; handles := handles w;
     syscalls := syscalls w; now := now w |}.

Definition set_pgroups (g : gset Z) (w : world) : world :=
  {| files := files w; timings := timings w; dirs := dirs w;
     console := console w; pgroups := g; handles := handles w;
     syscalls := syscalls w; now := now w |}.

Definition set_handles (l : list popen) (w : world) : world :=
  {| files := files w; timings := timings w; dirs := dirs w;
     console := console w; pgroups := pgroups w; handles := l;
     syscalls := syscalls w; now := now w |}.

Definition set_syscalls (l : list syscall) (w : world) : world :=
  {| files := files w; timings := timings w; dirs := dirs w;
     console := console w; pgroups := pgroups w; handles := handles w;
     syscalls := l; now := now w |}.

Definition set_now (t : Q) (w : world) : world :=
  {| files := files w; timings := timings w; dirs := dirs w;
     console := console w; pgroups := pgroups w; handles := handles w;
     syscalls := syscalls w; now := t |}.

(** A computation that reads and changes the world and may raise; the
    world survives an exception. *)
Record io (A : Type) : Type := IO { run : world → result A * world }.
Arguments IO {A} run.
Arguments run {A} i w.

#[global] Instance io_ret : MRet io := fun _ a => IO (fun w => (Ok a, w)).
#[global] Instance io_bind : MBind io := fun _ _ k m =>
  IO (fun w =>
        match run m w with
        | (Ok a, w') => run (k a) w'
        | (Raise e, w') => (Raise e, w')
        end).

Definition lift {A : Type} (r : result A) : io A := IO (fun w => (r, w)).

(** [try: body except E: handler], where [handler] says which exceptions
    the clause catches. *)
Definition try_except {A : Type} (body : io A)
    (handler : exn → option (io A)) : io A :=
  IO (fun w =>
        match run body w with
        | (Ok a, w') => (Ok a, w')
        | (Raise e, w') =>
            match handler e with
            | Some k => run k w'
            | None => (Raise e, w')
            end
        end).

(** [try: body finally: fin] *)
Definition try_finally {A : Type} (body : io A) (fin : io unit) : io A :=
  IO (fun w =>
        match run body w with
        | (r, w') =>
            match run fin w' with
            | (Ok _, w'') => (r, w'')
            | (Raise e, w'') => (Raise e, w'')
            end
        end).

(** The child and the two relay threads as [main] experiences them: whether
    the launch succeeds, the child's process identifier, what it writes to
    its two channels, after how many seconds it exits by itself and with
    which status ([None] when it never does), after how many seconds its
    status can be collected once its tree has been killed, the order in
    which the relays' writes reach the shared log file, and how long each
    relay still runs when [main] joins it. *)
Record child := {
  child_spawns : bool;
  child_pid : Z;
  child_stdout : string;
  child_stderr : string;
  child_exit : option (Q * Z);
  child_reaped : option (Q * Z);
  relay_schedule : list bool;
  stdout_drain : Q;
  stderr_drain : Q;
}.

Definition monotonic : io Q := IO (fun w => (Ok (now w), w)).

Definition sleep (d : Q) : io unit :=
  IO (fun w => (Ok tt, set_now (now w + d)%Q w)).

(** [Path.exists()] *)
Definition exists_in (w : world) (p : string) : bool :=
  bool_decide (p ∈ dirs w)
  || bool_decide (is_Some (files w !! p))
  || bool_decide (is_Some (timings w !! p)).

Definition path_exists (p : string) : io bool :=
  IO (fun w => (Ok (exists_in w p), w)).

(** [log_path.parent.mkdir(parents=True, exist_ok=True)] *)
Definition mkdir_parents (h : host) (p : string) : io unit :=
  IO (fun w =>
        let ps := path_parents h p in
        if bool_decide (Exists (fun d => is_Some (files w !! d)) ps)
        then (Raise OSError, w)
        else (Ok tt, set_dirs (list_to_set ps ∪ dirs w) w)).

(** Opening a file in mode ["ab"], writing, closing. *)
Definition open_append (p : string) : io unit :=
  IO (fun w =>
        if bool_decide (p ∈ dirs w) then (Raise OSError, w)
        else (Ok tt,
              set_files (<[p := default "" (files w !! p)]> (files w)) w)).

Definition append_bytes (p : string) (data : string) : io unit :=
  IO (fun w =>
        (Ok tt,
         set_files
           (<[p := default "" (files w !! p) +:+ data]> (files w)) w)).

(** [sys.stderr.buffer.write(data)] and [sys.stderr.buffer.flush()] *)
Definition console_write (data : string) : io unit :=
  IO (fun w => (Ok tt, set_console (console w ++ [Write data]) w)).

Definition console_flush : io unit :=
  IO (fun w => (Ok tt, set_console (console w ++ [Flush]) w)).

(** [subprocess.Popen(cmd, stdout=PIPE, stderr=PIPE, ...)] in a process
    group of its own. *)
Definition is_str (v : value) : bool :=
  match v with VStr _ => true | _ => false end.

(** The string has a NUL character in it. *)
Fixpoint has_nul (s : string) : bool :=
  match s with
  | EmptyString => false
  | String c r => Ascii.eqb c "000" || has_nul r
  end.

Definition arg_has_nul (v : value) : bool :=
  match v with VStr s => has_nul s | _ => false end.

(** What is wrong with an argument list, if anything.  On POSIX the
    arguments are converted to C strings one after the other, and the first
    that is not a string ([TypeError]) or has a NUL in it ([ValueError])
    stops the conversion.  On Windows [list2cmdline] first joins all the
    arguments, which need to be strings, and [CreateProcess] then refuses a
    command line with a NUL in it. *)
Fixpoint argv_error_posix (cmd : list value) : option exn :=
  match cmd with
  | [] => None
  | VStr s :: rest =>
      if has_nul s then Some ValueError else argv_error_posix rest
  | _ :: _ => Some TypeError
  end.

Definition argv_error_win32 (cmd : list value) : option exn :=
  if negb (forallb is_str cmd) then Some TypeError
  else if existsb arg_has_nul cmd then Some ValueError
  else None.

Definition argv_error (h : host) (cmd : list value) : option exn :=
  if String.eqb (sys_platform h) "win32"
  then argv_error_win32 cmd else argv_error_posix cmd.

Definition Popen (h : host) (c : child) (cmd : list value) : io nat :=
  IO (fun w =>
        match argv_error h cmd with
        | Some e => (Raise e, w)
        | None =>
            if negb (child_spawns c) then (Raise OSError, w)
            else
              (Ok (length (handles w)),
               set_pgroups ({[child_pid c]} ∪ pgroups w)
                 (set_handles
                    (handles w
                       ++ [{| pid := child_pid c; returncode := None |}])
                    w))
        end).

Definition handle (proc : nat) : io popen :=
  IO (fun w =>
        match handles w !! proc with
        | Some p => (Ok p, w)
        | None => (Raise ValueError, w)
        end).

(** [proc.wait(timeout=...)]: the status already in the slot, or the one
    that [obs] lets the wait observe in time, which then fills the slot. *)
Definition Popen_wait (obs : option (Q * Z)) (proc : nat) (timeout : Z)
  : io Z :=
  p ← handle proc;
  match returncode p with
  | Some rc => mret rc
  | None =>
      match obs with
      | Some (t, rc) =>
          if Qle_bool t (inject_Z timeout) then
            IO (fun w =>
                  (Ok rc,
                   set_now (now w + t)%Q
                     (set_handles
                        (<[proc := {| pid := pid p;
                                      returncode := Some rc |}]>
                           (handles w)) w)))
          else _ ← sleep (inject_Z timeout); lift (Raise TimeoutExpired)
      | None => _ ← sleep (inject_Z timeout); lift (Raise TimeoutExpired)
      end
  end.

Definition SIGKILL : Z := 9.

(** [os.killpg(pgid, sig)] with a lethal signal. *)
Definition os_killpg (pgid sig : Z) : io unit :=
  IO (fun w =>
        let w := set_syscalls (syscalls w ++ [Killpg pgid sig]) w in
        if bool_decide (pgid ∈ pgroups w)
        then (Ok tt, set_pgroups (pgroups w ∖ {[pgid]}) w)
        else (Raise ProcessLookupError, w)).

(** [subprocess.run(["taskkill", "/T", "/F", "/PID", pid],
    capture_output=True)]: the status of [taskkill] is not checked. *)
Definition run_taskkill (root : Z) : io unit :=
  IO (fun w =>
        (Ok tt,
         set_pgroups (pgroups w ∖ {[root]})
           (set_syscalls (syscalls w ++ [Taskkill root]) w))).

Definition _kill_process_tree (h : host) (proc : nat) : io unit :=
  p ← handle proc;
  if String.eqb (sys_platform h) "win32" then
    run_taskkill (pid p)
  else
    try_except (os_killpg (pid p) SIGKILL)
      (fun e => match e with
                | ProcessLookupError => Some (mret tt)
                | _ => None
                end).

(** *** Timing *)

(** Rounding to the nearest integer, ties to the even one. *)
Definition round_half_even (q : Q) : Z :=
  let f := Qfloor q in
  match Qcompare (q - inject_Z f)%Q (1 # 2)%Q with
  | Lt => f
  | Gt => f + 1
  | Eq => if Z.even f then f else f + 1
  end.

(** [round(x, ndigits)] *)
Definition round_ndigits (x : Q) (ndigits : nat) : Q :=
  Qmake (round_half_even (x * inject_Z (10 ^ Z.of_nat ndigits))%Q)
        (Z.to_pos (10 ^ Z.of_nat ndigits)).

(** [divmod(x, d)] for a positive [d]: the quotient is a whole number. *)
Definition divmod (x : Q) (d : Z) : Z * Q :=
  let q := Qfloor (x / inject_Z d)%Q in
  (q, (x - inject_Z (q * d))%Q).

Fixpoint zeros (n : nat) : string :=
  match n with
  | O => ""
  | S n => String "0" (zeros n)
  end.

Definition zfill (width : nat) (s : string) : string :=
  zeros (width - String.length s) +:+ s.

(** [f"{x:.<prec>f}"] *)
Definition format_f (prec : nat) (x : Q) : string :=
  let scale := 10 ^ Z.of_nat prec in
  let n := Z.abs (round_half_even (x * inject_Z scale)%Q) in
  let sign := if Qle_bool 0 x then "" else "-" in
  sign +:+ str_int (n / scale) +:+
  match prec with
  | O => ""
  | _ => "." +:+ zfill prec (str_int (n mod scale))
  end.

(** The value of [timing_data] in [_write_timing], lines 165-172. *)
Definition make_timing_data (elapsed : Q) : timing_data :=
  let '(minutes, secs) := divmod elapsed 60 in
  {| elapsed_seconds := round_ndigits elapsed 2;
     elapsed_display :=
       if 1 <=? minutes
       then str_int minutes +:+ "m " +:+ format_f 0 secs +:+ "s"
       else format_f 1 secs +:+ "s" |}.

(** The timing document is kept as the dictionary that [json.dumps]
    serialises, under its path, apart from the byte files.
    [timing_path.write_text] opens the path for writing, which raises
    ([IsADirectoryError], an [OSError]) when the path is a directory. *)
Definition _write_timing (h : host) (log_path : string) (elapsed : Q)
  : io unit :=
  let timing_path := path_with_suffix h log_path ".timing.json" in
  IO (fun w =>
        if bool_decide (timing_path ∈ dirs w) then (Raise OSError, w)
        else
          (Ok tt,
           set_timings
             (<[timing_path := make_timing_data elapsed]> (timings w)) w)).

(** *** The supervisor *)

(** The bytes a sequence of writes puts in a file. *)
Fixpoint payload (evs : list io_event) : string :=
  match evs with
  | [] => ""
  | Write data :: evs => data +:+ payload evs
  | Flush :: evs => payload evs
  end.

(** One way two threads' operations on a shared file can be ordered:
    [true] lets the first thread go, [false] the second. *)
Fixpoint interleave {A : Type} (schedule : list bool) (a b : list A)
  : list A :=
  match schedule with
  | [] => a ++ b
  | true :: schedule =>
      match a with
      | x :: a => x :: interleave schedule a b
      | [] => b
      end
  | false :: schedule =>
      match b with
      | y :: b => y :: interleave schedule a b
      | [] => a
      end
  end.

(** A relay thread run on what its channel delivers. *)
Definition relay (content : string) (log_file_handle : sink)
    (forward_to : option sink) : sink * option sink :=
  match _stream_reader {| unread := content; stream_closed := false |}
          log_file_handle forward_to with
  | Ok (_, log_file_handle, forward_to) => (log_file_handle, forward_to)
  | Raise _ => (log_file_handle, forward_to)
  end.

(** The two relay threads of lines 221-232, from [start()] to the point
    where [main] joins them: [stdout] goes to the log file only, [stderr]
    to the log file and the console. *)
Definition relay_threads (c : child) (log_path : string) : io unit :=
  IO (fun w =>
        let log_fh := {| sink_events := []; sink_closed := false |} in
        let stderr_buffer :=
          {| sink_events := console w; sink_closed := false |} in
        let '(out_log, _) := relay (child_stdout c) log_fh None in
        let '(err_log, err_console) :=
          relay (child_stderr c) log_fh (Some stderr_buffer) in
        let written :=
          interleave (relay_schedule c)
            (sink_events out_log) (sink_events err_log) in
        run (append_bytes log_path (payload written))
            (set_console
               (sink_events (default stderr_buffer err_console)) w)).

(** [thread.join(timeout=...)] of a thread that needs [drain] more
    seconds. *)
Definition join (drain : Q) (timeout : Z) : io unit :=
  sleep (Qmin (Qmax 0 drain) (inject_Z timeout)).

(** [main] is written in three parts: [launch] (lines 177-232),
    [await] (lines 234-253) and [report] (lines 255-281). *)

(** The local variables of [main] once the child runs. *)
Record launched := {
  config : gmap string value;
  repo : string;
  log_path : string;
  process : nat;
  start_time : Q;
}.

Definition launch (h : host) (c : child) (raw : gmap string value)
  : io launched :=
  config ← lift (_load_config raw);
  repo ← lift (getitem config "patina_qemu_repo" ≫= as_path);
  let script := path_join h repo "build_and_run_rust_binary.py" in
  log_path ← lift (getitem config "log_file" ≫= as_path);
  _ ← mkdir_parents h log_path;
  cmd ← lift (main_cmd h config script);
  start_time ← monotonic;
  _ ← open_append log_path;
  process ← Popen h c cmd;
  mret {| config := config; repo := repo; log_path := log_path;
          process := process; start_time := start_time |}.

(** The bounded wait, the kill on timeout, the joins and the timing file;
    the result is the pair of [return_code] and [timed_out]. *)
Definition await (h : host) (c : child) (l : launched) : io (Z * bool) :=
  r ←
    try_finally
      (try_except
         (return_code ←
            Popen_wait (child_exit c) (process l)
              SUBPROCESS_TIMEOUT_SECONDS;
          mret (return_code, false))
         (fun e =>
            match e with
            | TimeoutExpired =>
                Some
                  (_ ← _kill_process_tree h (process l);
                   return_code ←
                     try_except
                       (Popen_wait (child_reaped c) (process l)
                          THREAD_JOIN_TIMEOUT_SECONDS)
                       (fun e =>
                          match e with
                          | TimeoutExpired => Some (mret 1)
                          | _ => None
                          end);
                   mret (return_code, true))
            | _ => None
            end))
      (_ ← relay_threads c (log_path l);
       _ ← join (stdout_drain c) THREAD_JOIN_TIMEOUT_SECONDS;
       join (stderr_drain c) THREAD_JOIN_TIMEOUT_SECONDS);
  end_time ← monotonic;
  let elapsed_seconds := (end_time - start_time l)%Q in
  _ ← _write_timing h (log_path l) elapsed_seconds;
  mret r.

Definition timeout_msg : string :=
  "ERROR: build_and_run_rust_binary.py timed out after "
  +:+ str_int SUBPROCESS_TIMEOUT_SECONDS +:+ " seconds." +:+ nl.

Definition shutdown_drive (h : host) (l : launched) : string :=
  path_join h (path_join h (repo l) "Build") "shutdown_drive".

Definition uefi_logs (h : host) (l : launched) : string :=
  path_join h (shutdown_drive h l) "UefiLogs".

Definition failure_msg (h : host) (l : launched) : string :=
  "ERROR: Boot did not succeed: UefiLogs directory not found in '"
  +:+ shutdown_drive h l +:+ "'." +:+ nl.

(** What [main] returns, and its local variable [timed_out]. *)
Record run_result := {
  exit_code : Z;
  timed_out : bool;
}.

Definition report (h : host) (l : launched) (return_code : Z)
    (timed_out : bool) : io run_result :=
  if timed_out then
    _ ← console_write timeout_msg;
    _ ← console_flush;
    _ ← append_bytes (log_path l) timeout_msg;
    mret {| exit_code := 1; timed_out := true |}
  else if truthy (get (config l) "shutdown_after_run") then
    drive_exists ← path_exists (shutdown_drive h l);
    if drive_exists : bool then
      logs_exist ← path_exists (uefi_logs h l);
      if negb logs_exist then
        _ ← console_write (failure_msg h l);
        _ ← console_flush;
        _ ← append_bytes (log_path l) (failure_msg h l);
        mret {| exit_code := 1; timed_out := false |}
      else mret {| exit_code := return_code; timed_out := false |}
    else mret {| exit_code := return_code; timed_out := false |}
  else mret {| exit_code := return_code; timed_out := false |}.

Definition main (h : host) (c : child) (raw : gmap string value)
  : io run_result :=
  l ← launch h c raw;
  '(return_code, timed_out) ← await h c l;
  report h l return_code timed_out.

(** The lines of a stream in the order [readline] delivers them. *)
Fixpoint split_lines (s : string) : list string :=
  match s with
  | EmptyString => []
  | String c r =>
      if Ascii.eqb c "010" then String c EmptyString :: split_lines r
      else match split_lines r with
           | [] => [String c EmptyString]
           | l :: ls => String c l :: ls
           end
  end.

(** What relaying [lines] does to a sink: each line written, then
    flushed. *)
Definition relayed (lines : list string) : list io_event :=
  flat_map (fun line => [Write line; Flush]) lines.


Definition open_sink (k : sink) : Prop := sink_closed k = false.

Definition kill_request (h : host) (root : Z) : syscall :=
  if String.eqb (sys_platform h) "win32"
  then Taskkill root else Killpg root SIGKILL.

(** The world right after a successful launch. *)
Definition launched_world (h : host) (c : child) (l : launched) (w : world)
  : world :=
  set_pgroups ({[child_pid c]} ∪ pgroups w)
    (set_handles
       (handles w ++ [{| pid := child_pid c; returncode := None |}])
       (set_files
          (<[log_path l := default "" (files w !! log_path l)]> (files w))
          (set_dirs (list_to_set (path_parents h (log_path l)) ∪ dirs w)
             w))).

(** What the two relays put in the log file, and what the [stderr] relay
    puts on the console. *)
Definition logged (c : child) : string :=
  payload
    (interleave (relay_schedule c)
       (relayed (split_lines (child_stdout c)))
       (relayed (split_lines (child_stderr c)))).

Definition mirrored (c : child) : list io_event :=
  relayed (split_lines (child_stderr c)).



(** The post-run check fails: the shutdown check is asked for and the
    [shutdown_drive] directory is there without [UefiLogs] in it. *)
Definition boot_failed (h : host) (l : launched) (w : world) : bool :=
  truthy (get (config l) "shutdown_after_run")
  && exists_in w (shutdown_drive h l)
  && negb (exists_in w (uefi_logs h l)).

(** A non-empty string of decimal digits. *)
Definition decimal_digit (c : ascii) : bool :=
  ((48 <=? N_of_ascii c) && (N_of_ascii c <=? 57))%N.

Fixpoint all_digits (s : string) : bool :=
  match s with
  | EmptyString => true
  | String c r => decimal_digit c && all_digits r
  end.

Definition numeral (s : string) : bool :=
  negb (String.eqb s "") && all_digits s.

(** The seconds a bounded join of a thread that needs [drain] more seconds
    takes. *)
Definition join_seconds (drain : Q) : Q :=
  Qmin (Qmax 0 drain) (inject_Z THREAD_JOIN_TIMEOUT_SECONDS).

(** What the [finally] clause makes of the world the waits left: the
    relays' output in the log file and on the console, the two joins on the
    clock. *)
Definition drained (c : child) (l : launched) (w : world) : world :=
  set_now (now w + join_seconds (stdout_drain c)
           + join_seconds (stderr_drain c))
    (set_now (now w + join_seconds (stdout_drain c))
       (set_files
          (<[log_path l :=
               default "" (files w !! log_path l) +:+ logged c]>
             (files w))
          (set_console (console w ++ mirrored c) w))).

(** And what the timing file, once written, adds to it: the timing
    document. *)
Definition finalized (h : host) (c : child) (l : launched) (w : world)
  : world :=
  let t := (now w + join_seconds (stdout_drain c)
            + join_seconds (stderr_drain c))%Q in
  set_timings
    (<[path_with_suffix h (log_path l) ".timing.json" :=
         make_timing_data (t - start_time l)]> (timings w))
    (drained c l w).


End QemuValidation.

Import QemuValidation.

(** ** extract_build_errors.py *)

Module ExtractBuildErrors.

(** *** Regular expressions *)

Inductive regex :=
| Void
| Eps
| Class (p : ascii → bool)
| Cat (r1 r2 : regex)
| Alt (r1 r2 : regex)
| Star (r : regex).

Definition Opt (r : regex) : regex := Alt r Eps.
Definition Plus (r : regex) : regex := Cat r (Star r).
Definition Chr (c : ascii) : regex := Class (Ascii.eqb c).

Fixpoint Lit (s : string) : regex :=
  match s with
  | EmptyString => Eps
  | String c r => Cat (Chr c) (Lit r)
  end.

Fixpoint nullable (r : regex) : bool :=
  match r with
  | Void => false
  | Eps => true
  | Class _ => false
  | Cat r1 r2 => nullable r1 && nullable r2
  | Alt r1 r2 => nullable r1 || nullable r2
  | Star _ => true
  end.

(** What is left of [r] after it has read [c]. *)
Fixpoint deriv (c : ascii) (r : regex) : regex :=
  match r with
  | Void => Void
  | Eps => Void
  | Class p => if p c then Eps else Void
  | Cat r1 r2 =>
      if nullable r1
      then Alt (Cat (deriv c r1) r2) (deriv c r2)
      else Cat (deriv c r1) r2
  | Alt r1 r2 => Alt (deriv c r1) (deriv c r2)
  | Star r1 => Cat (deriv c r1) (Star r1)
  end.

(** [bool(r.match(s))]: some prefix of [s] is a word of [r]. *)
Fixpoint re_match (r : regex) (s : string) : bool :=
  nullable r ||
  match s with
  | EmptyString => false
  | String c s => re_match (deriv c r) s
  end.

(** [bool(r.search(s))]: [r] matches at some position of [s]. *)
Fixpoint re_search (r : regex) (s : string) : bool :=
  re_match r s ||
  match s with
  | EmptyString => false
  | String _ s => re_search r s
  end.

Definition code (c : ascii) : N := N_of_ascii c.

(** [\s] and [str.isspace] on ASCII characters: tab to carriage return,
    the four separators 28 to 31, and the space. *)
Definition is_space (c : ascii) : bool :=
  ((9 <=? code c) && (code c <=? 13) || (28 <=? code c) && (code c <=? 32))%N.

(** [\d] on ASCII characters *)
Definition is_digit (c : ascii) : bool :=
  ((48 <=? code c) && (code c <=? 57))%N.

(** [\w] on ASCII characters *)
Definition is_word (c : ascii) : bool :=
  (is_digit c
   || (65 <=? code c) && (code c <=? 90)
   || (97 <=? code c) && (code c <=? 122)
   || (code c =? 95))%N.

(** [^(error(\[E\d+\])?:|warning(\[[\w\d]+\])?:)\s] *)
Definition SECTION_START_RE : regex :=
  Cat
    (Alt
       (Cat (Lit "error")
          (Cat (Opt (Cat (Lit "[E") (Cat (Plus (Class is_digit)) (Lit "]"))))
             (Lit ":")))
       (Cat (Lit "warning")
          (Cat
             (Opt
                (Cat (Lit "[")
                   (Cat (Plus (Class (fun c => is_word c || is_digit c)))
                      (Lit "]"))))
             (Lit ":"))))
    (Class is_space).

(** [\[cargo-make\] ERROR|error: build failed|error: could not compile] *)
Definition BUILD_ERROR_RE : regex :=
  Alt (Lit "[cargo-make] ERROR")
    (Alt (Lit "error: build failed") (Lit "error: could not compile")).

(** [^\s*(\d+\s*[|+\-]|[|]|\.\.\.|:::)\s?] *)
Definition RUSTC_GUTTER_RE : regex :=
  Cat (Star (Class is_space))
    (Cat
       (Alt
          (Cat (Plus (Class is_digit))
             (Cat (Star (Class is_space))
                (Class (fun c => Ascii.eqb c "|" || Ascii.eqb c "+"
                                 || Ascii.eqb c "-"))))
          (Alt (Chr "|") (Alt (Lit "...") (Lit ":::"))))
       (Opt (Class is_space))).

(** [^For more information about this error] *)
Definition RUSTC_INFO_RE : regex :=
  Lit "For more information about this error".

(** *** Strings *)

Fixpoint lstrip (s : string) : string :=
  match s with
  | EmptyString => EmptyString
  | String c r => if is_space c then lstrip r else s
  end.

Definition rstrip (s : string) : string :=
  String.rev (lstrip (String.rev s)).

(** [str.strip()] *)
Definition strip (s : string) : string := rstrip (lstrip s).

(** [s.startswith(p)] *)
Definition startswith (s p : string) : bool := String.prefix p s.

(** [sep.join(parts)] *)
Definition join (sep : string) (parts : list string) : string :=
  String.concat sep parts.

(** *** Sections *)

(** The test of lines 98-108 on a line read inside a section. *)
Definition is_continuation (line : string) : bool :=
  let stripped := strip line in
  startswith stripped "|"
  || startswith stripped "-->"
  || startswith stripped "="
  || startswith stripped "help:"
  || startswith stripped "note:"
  || re_match RUSTC_GUTTER_RE line
  || re_match RUSTC_INFO_RE line
  || String.eqb stripped "".

(** The variables of the loop of [extract_error_sections]. *)
Record scan := {
  sections : list string;
  current_section : list string;
  in_section : bool;
}.

Definition nonempty {A : Type} (l : list A) : bool :=
  match l with [] => false | _ => true end.

(** One turn of the loop, lines 92-119. *)
Definition scan_line (st : scan) (line : string) : scan :=
  if re_match SECTION_START_RE line then
    let sections :=
      if nonempty (current_section st)
      then sections st ++ [join nl (current_section st)]
      else sections st in
    {| sections := sections;
       current_section := [line];
       in_section := true |}
  else if in_section st then
    if is_continuation line then
      {| sections := sections st;
         current_section := current_section st ++ [line];
         in_section := true |}
    else
      let sections := sections st ++ [join nl (current_section st)] in
      {| sections :=
           if re_search BUILD_ERROR_RE line
           then sections ++ [line] else sections;
         current_section := [];
         in_section := false |}
  else if re_search BUILD_ERROR_RE line then
    {| sections := sections st ++ [line];
       current_section := current_section st;
       in_section := in_section st |}
  else st.

Definition extract_error_sections (lines : list string) : list string :=
  let st :=
    foldl scan_line
      {| sections := []; current_section := []; in_section := false |}
      lines in
  if nonempty (current_section st)
  then sections st ++ [join nl (current_section st)]
  else sections st.

(** A diagnostic block of [lines]: a section start followed by
    continuation lines, all consecutive lines of the input. *)
Definition diagnostic_block (lines : list string) (section : string) : Prop :=
  ∃ before start conts after,
    lines = before ++ start :: conts ++ after ∧
    section = join nl (start :: conts) ∧
    re_match SECTION_START_RE start = true ∧
    Forall (fun line => is_continuation line = true) conts.

(** A single build-system error line of the input. *)
Definition build_error_line (lines : list string) (section : string) : Prop :=
  section ∈ lines ∧ re_search BUILD_ERROR_RE section = true.

(** What holds of the loop variables after the lines [seen]. *)
Definition scan_inv (seen : list string) (st : scan) : Prop :=
  Forall (fun s => diagnostic_block seen s ∨ build_error_line seen s)
    (sections st) ∧
  (in_section st = nonempty (current_section st)) ∧
  (current_section st = [] ∨
   ∃ before start conts,
     seen = before ++ start :: conts ∧
     current_section st = start :: conts ∧
     re_match SECTION_START_RE start = true ∧
     Forall (fun line => is_continuation line = true) conts).

(** The loop variables before the first line. *)
Definition scan_start : scan :=
  {| sections := []; current_section := []; in_section := false |}.

(** What [extract_error_sections] returns from the final loop variables. *)
Definition scan_result (st : scan) : list string :=
  if nonempty (current_section st)
  then sections st ++ [join nl (current_section st)]
  else sections st.

(** Lines that open a block, and lines that can be reported alone. *)
Definition is_section_start (line : string) : bool :=
  re_match SECTION_START_RE line.

Definition is_build_error (line : string) : bool :=
  negb (re_match SECTION_START_RE line) && re_search BUILD_ERROR_RE line.

Definition open_blocks (st : scan) : nat :=
  if nonempty (current_section st) then 1%nat else 0%nat.

(** The lines after a section start that belong to its block: those up to
    the first line that opens a new block or is not a continuation. *)
Fixpoint continuation_run (lines : list string) : list string :=
  match lines with
  | [] => []
  | line :: rest =>
      if negb (is_section_start line) && is_continuation line
      then line :: continuation_run rest
      else []
  end.

(** The words of a regular expression. *)
Inductive lang : regex → string → Prop :=
| lang_eps : lang Eps ""
| lang_class p c : p c = true → lang (Class p) (String c "")
| lang_cat r1 r2 s1 s2 :
    lang r1 s1 → lang r2 s2 → lang (Cat r1 r2) (s1 +:+ s2)
| lang_alt_l r1 r2 s : lang r1 s → lang (Alt r1 r2) s
| lang_alt_r r1 r2 s : lang r2 s → lang (Alt r1 r2) s
| lang_star_nil r : lang (Star r) ""
| lang_star_cons r s1 s2 :
    lang r s1 → lang (Star r) s2 → lang (Star r) (s1 +:+ s2).

(** Every character of [s] is in the class [p]. *)
Fixpoint all_chars (p : ascii → bool) (s : string) : bool :=
  match s with
  | EmptyString => true
  | String c r => p c && all_chars p r
  end.

(** Text of ASCII characters only.  On such text the character classes and
    the line boundaries of this embedding are those of Python, whose
    classes for [str] take in more of Unicode. *)
Definition is_ascii (c : ascii) : bool := (code c <? 128)%N.

Definition ascii_text (s : string) : bool := all_chars is_ascii s.

(** The head of a section-start line: [error:] or [warning:], with an
    optional code in brackets before the colon, [E] and digits for an
    error, word characters for a warning. *)
Definition section_head (head : string) : Prop :=
  head = "error:" ∨
  (∃ digits, digits ≠ "" ∧ all_chars is_digit digits = true ∧
             head = "error[E" +:+ digits +:+ "]:") ∨
  head = "warning:" ∨
  (∃ name, name ≠ "" ∧ all_chars is_word name = true ∧
           head = "warning[" +:+ name +:+ "]:").

Definition MAX_SNIPPET_LINES : nat := 60.

(** The line boundaries of [str.splitlines] among the ASCII characters:
    line feed, vertical tab, form feed, carriage return and the separators
    28 to 30. *)
Definition is_linebreak (c : ascii) : bool :=
  ((10 <=? code c) && (code c <=? 13) || (28 <=? code c) && (code c <=? 30))%N.

(** [s.splitlines()]: the lines without their boundaries; a carriage
    return followed by a line feed is one boundary. *)
Fixpoint splitlines (s : string) : list string :=
  match s with
  | EmptyString => []
  | String c r =>
      if is_linebreak c then
        EmptyString ::
        match r with
        | String d r' =>
            if Ascii.eqb c "013" && Ascii.eqb d "010"
            then splitlines r' else splitlines r
        | EmptyString => []
        end
      else
        match splitlines r with
        | [] => [String c EmptyString]
        | l :: ls => String c l :: ls
        end
  end.

(** A log file found under the logs directory: the first component of its
    path relative to that directory, the relative path as a string, and
    its text. *)
Record log_file := {
  artifact_dir : string;
  label : string;
  text : string;
}.

(** The marker put before a truncated snippet: an ellipsis (in UTF-8) and
    [(truncated)]. *)
Definition truncated_marker : string :=
  String "226" (String "128" (String "166" " (truncated)")).

(** The lines shown in a snippet, lines 154-160. *)
Definition snippet_lines (sections : list string) : list string :=
  let combined := join (nl +:+ nl) sections in
  let combined_lines := splitlines combined in
  if (MAX_SNIPPET_LINES <? length combined_lines)%nat
  then truncated_marker
       :: drop (length combined_lines - MAX_SNIPPET_LINES) combined_lines
  else combined_lines.

(** The markdown snippet of one log file, lines 165-174. *)
Definition render_snippet (label : string) (sections : list string)
  : string :=
  let n_sections := length sections in
  let summary_text :=
    str_int (Z.of_nat n_sections) +:+ " error/warning section"
    +:+ (if (n_sections =? 1)%nat then "" else "s") in
  "<details>" +:+ nl +:+ "<summary><code>" +:+ label +:+ "</code>"
  +:+ " (" +:+ summary_text +:+ ")</summary>" +:+ nl +:+ nl +:+ "```" +:+ nl
  +:+ join nl (snippet_lines sections)
  +:+ nl +:+ "```" +:+ nl +:+ "</details>".

(** One turn of the loop of [build_error_map], lines 147-175. *)
Definition add_log (error_map : gmap string (list string)) (f : log_file)
  : gmap string (list string) :=
  let lines := splitlines (text f) in
  let sections := extract_error_sections lines in
  if nonempty sections then
    <[artifact_dir f :=
        default [] (error_map !! artifact_dir f)
        ++ [render_snippet (label f) sections]]> error_map
  else error_map.

(** [build_error_map]: [logs] is [None] when the logs directory is not a
    directory, and otherwise its [*.log] files in sorted order. *)
Definition build_error_map (logs : option (list log_file))
  : gmap string (list string) :=
  match logs with
  | None => ∅
  | Some files => foldl add_log ∅ files
  end.

(** The snippets the log files of the artifact [a] give, in order. *)
Definition snippets_of (a : string) (files : list log_file) : list string :=
  flat_map
    (fun f =>
       let sections := extract_error_sections (splitlines (text f)) in
       if bool_decide (artifact_dir f = a) && nonempty sections
       then [render_snippet (label f) sections] else [])
    files.

End ExtractBuildErrors.

Import ExtractBuildErrors.

(** ** Sample hosts, worlds, configurations and children *)

Module Examples.

(** The [pathlib] operations on normalised paths that have no drive and
    name a file, for the separator [sep] that [str] writes and the
    characters [is_sep] that are read as separators. *)
Section Paths.

Variable sep : ascii.
Variable is_sep : ascii → bool.

Definition root : string := String sep "".

(** [str(Path(p) / c)] *)
Definition join_path (p c : string) : string :=
  match c with
  | EmptyString => p
  | String d _ =>
      if is_sep d then c
      else if String.eqb p "." || String.eqb p "" then c
      else if String.eqb p root then p +:+ c
      else p +:+ root +:+ c
  end.

(** The reversed path without its final component and the separator before
    it. *)
Fixpoint parent_rev (r : string) : option string :=
  match r with
  | EmptyString => None
  | String c r' => if is_sep c then Some r' else parent_rev r'
  end.

(** [str(Path(p).parent)], or [None] when [p] is its own parent. *)
Definition parent (p : string) : option string :=
  if String.eqb p "." || String.eqb p root then None
  else match parent_rev (String.rev p) with
       | None => Some "."
       | Some EmptyString => Some root
       | Some r => Some (String.rev r)
       end.

Fixpoint parents_upto (fuel : nat) (p : string) : list string :=
  match fuel with
  | O => []
  | S fuel =>
      match parent p with
      | None => []
      | Some q => q :: parents_upto fuel q
      end
  end.

(** [Path(p).parent] and its ancestors, nearest first. *)
Definition parents (p : string) : list string :=
  parents_upto (S (String.length p)) p.

(** The reversed final component without its last suffix, when it has one:
    the suffix starts at the last dot of the name, which is neither its
    first nor its last character. *)
Fixpoint stem_rev (last : bool) (r : string) : option string :=
  match r with
  | EmptyString => None
  | String c r' =>
      if is_sep c then None
      else if Ascii.eqb c "." then
        if last then None
        else match r' with
             | EmptyString => None
             | String d _ => if is_sep d then None else Some r'
             end
      else stem_rev false r'
  end.

(** [str(Path(p).with_suffix(s))]: the last suffix of the name is replaced
    by [s], and [s] is added to a name without a suffix. *)
Definition with_suffix (p s : string) : string :=
  match stem_rev true (String.rev p) with
  | Some r => String.rev r +:+ s
  | None => p +:+ s
  end.

End Paths.

Definition posix : host :=
  {| sys_platform := "linux";
     sys_executable := "/usr/bin/python3";
     path_join := join_path "/" (Ascii.eqb "/");
     path_parents := parents "/" (Ascii.eqb "/");
     path_with_suffix := with_suffix (Ascii.eqb "/") |}.

Definition windows : host :=
  {| sys_platform := "win32";
     sys_executable := "python.exe";
     path_join :=
       join_path "\" (fun c => Ascii.eqb c "\" || Ascii.eqb c "/");
     path_parents :=
       parents "\" (fun c => Ascii.eqb c "\" || Ascii.eqb c "/");
     path_with_suffix :=
       with_suffix (fun c => Ascii.eqb c "\" || Ascii.eqb c "/") |}.

Definition fresh_world : world :=
  {| files := ∅; timings := ∅; dirs := ∅; console := [];
     pgroups := ∅; handles := []; syscalls := []; now := 0 |}.

(** A configuration that asks for the shutdown check. *)
Definition sample_raw : gmap string value :=
  list_to_map
    [ ("fw_patch_repo", VStr "fw");
      ("patina_dxe_core_repo", VStr "dxe");
      ("patina_qemu_repo", VStr "qemu");
      ("platform", VStr "Q35");
      ("pre_compiled_rom", VStr "rom.fd");
      ("toolchain", VStr "GCC5");
      ("log_file", VStr "build.log");
      ("shutdown_after_run", VBool true) ].

(** A child that writes a line on each channel and exits with [code]
    after two seconds. *)
Definition child_exits (code : Z) : child :=
  {| child_spawns := true;
     child_pid := 4242;
     child_stdout := "booting" +:+ nl;
     child_stderr := "warning: slow" +:+ nl;
     child_exit := Some (2%Q, code);
     child_reaped := None;
     relay_schedule := [true; false];
     stdout_drain := 0;
     stderr_drain := 0 |}.


Definition returned {A : Type} (d : A) (r : result A * world) : A :=
  match r.1 with
  | Ok a => a
  | Raise _ => d
  end.

Definition no_launch : launched :=
  {| config := ∅; repo := ""; log_path := ""; process := 0%nat;
     start_time := 0%Q |}.

End Examples.

(** * Properties *)

(** ** Configuration *)

Lemma setdefault_lookup (d : gmap string value) k v k' :
  setdefault d k v !! k' =
  match d !! k' with
  | Some x => Some x
  | None => if decide (k = k') then Some v else None
  end.
Proof.
  unfold setdefault. destruct (d !! k) as [x|] eqn:E.
  - destruct (d !! k') eqn:E'; [done|]. case_decide; [congruence|done].
  - rewrite lookup_insert. case_decide; subst.
    + by rewrite E.
    + by destruct (d !! k').
Qed.

(** The keys of [_DEFAULTS] are filled in, what [raw] gives stays. *)
Lemma defaults_lookup (raw : gmap string value) k :
  foldl (fun d kv => setdefault d kv.1 kv.2) raw _DEFAULTS !! k =
  match raw !! k with
  | Some x => Some x
  | None => (list_to_map _DEFAULTS : gmap string value) !! k
  end.
Proof.
  unfold _DEFAULTS. simpl. rewrite !setdefault_lookup.
  destruct (raw !! k); [done|].
  repeat (rewrite lookup_insert; case_decide; [done|]).
  by rewrite lookup_empty.
Qed.

(** [_load_config] never raises on a parsed object, and this is what it
    makes of it. *)
Lemma load_config_lookup (raw : gmap string value) :
  ∃ config,
    _load_config raw = Ok config ∧
    config !! "no_build" =
      Some (VBool (_coerce_bool (default (VBool false) (raw !! "no_build")))) ∧
    config !! "shutdown_after_run" =
      Some (VBool (_coerce_bool
                     (default (VBool false) (raw !! "shutdown_after_run")))) ∧
    config !! "build_target" =
      Some (default (VStr "DEBUG") (raw !! "build_target")) ∧
    config !! "qemu_path" = Some (default (VStr "") (raw !! "qemu_path")) ∧
    ∀ k, k ∉ _DEFAULTS.*1 → config !! k = raw !! k.
Proof.
  unfold _load_config, getitem.
  set (d := foldl _ raw _DEFAULTS).
  assert (Hd : ∀ k, d !! k = match raw !! k with
                             | Some x => Some x
                             | None => (list_to_map _DEFAULTS
                                         : gmap string value) !! k
                             end) by apply defaults_lookup.
  rewrite (Hd "no_build"). 
  assert (Hnb : ∃ nb, match raw !! "no_build" with
                      | Some x => Some x
                      | None => (list_to_map _DEFAULTS
                                  : gmap string value) !! "no_build"
                      end = Some nb ∧
                      nb = default (VBool false) (raw !! "no_build")).
  { destruct (raw !! "no_build"); simpl; eauto. }
  destruct Hnb as (nb & -> & ->). simpl.
  rewrite lookup_insert_ne by done. rewrite (Hd "shutdown_after_run").
  assert (Hs : ∃ sar, match raw !! "shutdown_after_run" with
                      | Some x => Some x
                      | None => (list_to_map _DEFAULTS
                                  : gmap string value) !! "shutdown_after_run"
                      end = Some sar ∧
                      sar = default (VBool false) (raw !! "shutdown_after_run")).
  { destruct (raw !! "shutdown_after_run"); simpl; eauto. }
  destruct Hs as (sar & -> & ->). simpl.
  eexists. split; [reflexivity|].
  repeat split.
  - rewrite lookup_insert_ne by done. by rewrite lookup_insert_eq.
  - by rewrite lookup_insert_eq.
  - rewrite !lookup_insert_ne by done. rewrite Hd.
    by destruct (raw !! "build_target").
  - rewrite !lookup_insert_ne by done. rewrite Hd.
    by destruct (raw !! "qemu_path").
  - intros k Hk. simpl in Hk.
    rewrite !lookup_insert_ne by (intros <-; apply Hk; set_solver).
    rewrite Hd. destruct (raw !! k) eqn:E; [done|].
    simpl. repeat (rewrite lookup_insert_ne by (intros <-; apply Hk; set_solver)).
    done.
Qed.

(** Lowercasing gives ["true"] exactly for the sixteen ways of writing
    it in upper and lower case. *)
Lemma lower_true s :
  lower s = "true" ↔
  s ∈ [ "true"; "truE"; "trUe"; "trUE"; "tRue"; "tRuE"; "tRUe"; "tRUE";
        "True"; "TruE"; "TrUe"; "TrUE"; "TRue"; "TRuE"; "TRUe"; "TRUE" ].
Proof.
  assert (letter : ∀ c : ascii,
             (lower_ascii c = "t" → c = "t" ∨ c = "T")%char ∧
             (lower_ascii c = "r" → c = "r" ∨ c = "R")%char ∧
             (lower_ascii c = "u" → c = "u" ∨ c = "U")%char ∧
             (lower_ascii c = "e" → c = "e" ∨ c = "E")%char).
  { intros c. destruct c as [[] [] [] [] [] [] [] []]; vm_compute;
      repeat split; intros H; try discriminate H; auto. }
  split.
  - destruct s as [|c1 [|c2 [|c3 [|c4 [|c5 s]]]]]; simpl; try discriminate.
    intros [= H1 H2 H3 H4].
    apply (letter c1) in H1. apply (letter c2) in H2.
    apply (letter c3) in H3. apply (letter c4) in H4. clear letter.
    destruct H1 as [E1 | E1]; destruct H2 as [E2 | E2];
      destruct H3 as [E3 | E3]; destruct H4 as [E4 | E4];
      rewrite E1, E2, E3, E4; set_solver.
  - intros H. repeat (apply elem_of_cons in H as [->|H]); try reflexivity.
    by apply elem_of_nil in H.
Qed.

(** C10. At the configuration interface, [no_build] and
    [shutdown_after_run] given as a JSON boolean pass through unchanged;
    given as any other JSON value they become [True] exactly when the
    string form of the value, lowercased, is ["true"], so that the strings
    ["1"], ["yes"] and ["on"] all become [False]. *)
Theorem coerce_bool_at_interface (raw : gmap string value) key v :
  key ∈ ["no_build"; "shutdown_after_run"] →
  raw !! key = Some v →
  ∃ config,
    _load_config raw = Ok config ∧
    config !! key = Some (VBool (_coerce_bool v)) ∧
    match v with
    | VBool b => _coerce_bool v = b
    | _ => _coerce_bool v = true ↔ lower (str v) = "true"
    end ∧
    (v ∈ [VStr "1"; VStr "yes"; VStr "on"] →
     config !! key = Some (VBool false)).
Proof.
  intros Hkey Hv.
  destruct (load_config_lookup raw) as (config & Hc & Hnb & Hsar & _).
  exists config. split; [done|].
  assert (Hk : config !! key = Some (VBool (_coerce_bool v))).
  { apply elem_of_cons in Hkey as [->|Hkey].
    - by rewrite Hnb, Hv.
    - apply list_elem_of_singleton in Hkey as ->. by rewrite Hsar, Hv. }
  split; [done|]. split.
  - destruct v as [|b|z|s]; simpl; try done;
      (split; [intros H; by apply String.eqb_eq in H
              |intros H; by apply String.eqb_eq]).
  - intros Hin. rewrite Hk.
    repeat (apply elem_of_cons in Hin as [->|Hin]); try reflexivity.
    by apply elem_of_nil in Hin.
Qed.

Lemma coerce_bool_at_interface_witness :
  ∃ config,
    _load_config {["no_build" := VStr "yes"]} = Ok config ∧
    config !! "no_build" = Some (VBool false).
Proof.
  destruct (coerce_bool_at_interface
              {["no_build" := VStr "yes"]} "no_build" (VStr "yes"))
    as (config & H1 & H2 & _).
  - set_solver.
  - reflexivity.
  - exists config. split; [exact H1 | exact H2].
Defined.

(** ** The child's command line *)

Lemma cli_options_value (flag : string) v rest :
  takes_value (VStr flag) = true →
  cli_options (VStr flag :: v :: rest) =
  (VStr flag, Some v) :: cli_options rest.
Proof. intros H. simpl cli_options. by rewrite H. Qed.

Lemma cli_options_switch (flag : string) rest :
  takes_value (VStr flag) = false →
  cli_options (VStr flag :: rest) = (VStr flag, None) :: cli_options rest.
Proof. intros H. simpl cli_options. by rewrite H. Qed.

(** The command line in closed form. *)
Lemma main_cmd_closed h (config : gmap string value) script
    bt fw dxe pl rom tc :
  config !! "build_target" = Some bt →
  config !! "fw_patch_repo" = Some fw →
  config !! "patina_dxe_core_repo" = Some dxe →
  config !! "platform" = Some pl →
  config !! "pre_compiled_rom" = Some rom →
  config !! "toolchain" = Some tc →
  main_cmd h config script =
  Ok ([ VStr (sys_executable h); VStr script;
        VStr "--build-target"; bt; VStr "--fw-patch-repo"; fw;
        VStr "--patina-dxe-core-repo"; dxe; VStr "--platform"; pl;
        VStr "--pre-compiled-rom"; rom; VStr "--toolchain"; tc ]
      ++ (if truthy (get config "qemu_path")
          then [VStr "--qemu-path"; get config "qemu_path"] else [])
      ++ [VStr "--headless"]
      ++ (if truthy (get config "no_build") then [VStr "--no-build"] else [])
      ++ (if truthy (get config "shutdown_after_run")
          then [VStr "--shutdown-after-run"] else [])).
Proof.
  intros Hbt Hfw Hdxe Hpl Hrom Htc.
  unfold main_cmd, getitem. rewrite Hbt, Hfw, Hdxe, Hpl, Hrom, Htc.
  cbn [mbind result_bind mret result_ret].
  unfold get. destruct (config !! "qemu_path") as [qp|] eqn:Eqp;
    cbn [default from_option id].
  - destruct (truthy qp); cbn [mbind result_bind mret result_ret];
      destruct (truthy (default VNone (config !! "no_build")));
      destruct (truthy (default VNone (config !! "shutdown_after_run")));
      reflexivity.
  - cbn [truthy mbind result_bind mret result_ret].
    destruct (truthy (default VNone (config !! "no_build")));
      destruct (truthy (default VNone (config !! "shutdown_after_run")));
      reflexivity.
Qed.

(** C7. For a resolved configuration that has the required keys, the
    command line starts with the interpreter and the script and then holds:
    the six required flags, each followed by its configuration value; the
    fixed flag [--headless]; and [--qemu-path] (with its value),
    [--no-build] and [--shutdown-after-run] exactly when the corresponding
    field of the configuration is truthy. *)
Theorem main_cmd_flags h (raw config : gmap string value) script :
  _load_config raw = Ok config →
  Forall (fun k => is_Some (config !! k)) required_keys →
  ∃ cmd,
    main_cmd h config script = Ok cmd ∧
    take 2 cmd = [VStr (sys_executable h); VStr script] ∧
    cli_options (drop 2 cmd) =
      [ (VStr "--build-target", config !! "build_target");
        (VStr "--fw-patch-repo", config !! "fw_patch_repo");
        (VStr "--patina-dxe-core-repo", config !! "patina_dxe_core_repo");
        (VStr "--platform", config !! "platform");
        (VStr "--pre-compiled-rom", config !! "pre_compiled_rom");
        (VStr "--toolchain", config !! "toolchain") ]
      ++ qemu_path_option config
      ++ [(VStr "--headless", None)]
      ++ switch_option config "no_build" "--no-build"
      ++ switch_option config "shutdown_after_run" "--shutdown-after-run" ∧
    Forall (fun flag => VStr flag ∈ cli_flags cmd)
      [ "--build-target"; "--fw-patch-repo"; "--patina-dxe-core-repo";
        "--platform"; "--pre-compiled-rom"; "--toolchain"; "--headless" ] ∧
    (VStr "--qemu-path" ∈ cli_flags cmd ↔
     truthy (get config "qemu_path") = true) ∧
    (VStr "--no-build" ∈ cli_flags cmd ↔
     truthy (get config "no_build") = true) ∧
    (VStr "--shutdown-after-run" ∈ cli_flags cmd ↔
     truthy (get config "shutdown_after_run") = true).
Proof.
  intros Hload Hreq.
  destruct (load_config_lookup raw) as (config' & Hc & _ & _ & Hbt & Hqp & _).
  rewrite Hload in Hc. injection Hc as <-.
  unfold required_keys in Hreq.
  apply Forall_cons in Hreq as [[fw Hfw] Hreq].
  apply Forall_cons in Hreq as [[dxe Hdxe] Hreq].
  apply Forall_cons in Hreq as [[pl Hpl] Hreq].
  apply Forall_cons in Hreq as [[rom Hrom] Hreq].
  apply Forall_cons in Hreq as [[tc Htc] _].
  eexists. split; [by apply main_cmd_closed|].
  split; [reflexivity|].
  assert (Hopts :
    cli_options (drop 2
      ([ VStr (sys_executable h); VStr script;
         VStr "--build-target";
         default (VStr "DEBUG") (raw !! "build_target");
         VStr "--fw-patch-repo"; fw;
         VStr "--patina-dxe-core-repo"; dxe; VStr "--platform"; pl;
         VStr "--pre-compiled-rom"; rom; VStr "--toolchain"; tc ]
       ++ (if truthy (get config "qemu_path")
           then [VStr "--qemu-path"; get config "qemu_path"] else [])
       ++ [VStr "--headless"]
       ++ (if truthy (get config "no_build") then [VStr "--no-build"] else [])
       ++ (if truthy (get config "shutdown_after_run")
           then [VStr "--shutdown-after-run"] else []))) =
    [ (VStr "--build-target", config !! "build_target");
      (VStr "--fw-patch-repo", config !! "fw_patch_repo");
      (VStr "--patina-dxe-core-repo", config !! "patina_dxe_core_repo");
      (VStr "--platform", config !! "platform");
      (VStr "--pre-compiled-rom", config !! "pre_compiled_rom");
      (VStr "--toolchain", config !! "toolchain") ]
    ++ qemu_path_option config
    ++ [(VStr "--headless", None)]
    ++ switch_option config "no_build" "--no-build"
    ++ switch_option config "shutdown_after_run" "--shutdown-after-run").
  { rewrite Hbt, Hfw, Hdxe, Hpl, Hrom, Htc.
    cbn [drop app].
    rewrite !cli_options_value by (vm_compute; reflexivity).
    unfold qemu_path_option, switch_option, get.
    rewrite Hqp. cbn [default from_option id].
    destruct (truthy (from_option id (VStr "") (raw !! "qemu_path")));
      destruct (truthy (default VNone (config !! "no_build")));
      destruct (truthy (default VNone (config !! "shutdown_after_run")));
      cbn [app];
      rewrite ?cli_options_value by (vm_compute; reflexivity);
      rewrite ?cli_options_switch by (vm_compute; reflexivity);
      reflexivity. }
  split; [exact Hopts|].
  unfold cli_flags. rewrite Hopts. clear Hopts.
  unfold qemu_path_option, switch_option.
  assert (yes : ∀ (x : value) (l : list value),
             bool_decide (x ∈ l) = true → x ∈ l)
    by (intros x l; apply bool_decide_eq_true_1).
  assert (no : ∀ (x : value) (l : list value),
             bool_decide (x ∈ l) = false →
                                x ∈ l ↔ false = true).
  { intros x l Hd. apply bool_decide_eq_false_1 in Hd. split; [done|].
    discriminate. }
  destruct (truthy (get config "qemu_path"));
    destruct (truthy (get config "no_build"));
    destruct (truthy (get config "shutdown_after_run"));
    cbn [app fmap list_fmap fst];
    (split; [repeat (apply Forall_cons; split; [apply yes; vm_compute; reflexivity|]);
             apply Forall_nil_2|]);
    repeat split;
    try (intros _; apply yes; vm_compute; reflexivity);
    try (intros _; reflexivity);
    try (apply no; vm_compute; reflexivity).
Qed.

(** ** The stream relay *)

Lemma take_line_split s :
  s ≠ EmptyString →
  (take_line s).1 ≠ EmptyString ∧
  split_lines s = (take_line s).1 :: split_lines (take_line s).2.
Proof.
  induction s as [|c s IH]; [done|]. intros _. simpl.
  destruct (Ascii.eqb c "010"); [done|].
  destruct s as [|d s].
  - done.
  - destruct IH as [Hne Heq]; [done|].
    rewrite Heq. destruct (take_line (String d s)) as [l r]. done.
Qed.

Lemma take_line_empty : take_line "" = ("", "").
Proof. reflexivity. Qed.


Lemma relay_line_open line log fwd :
  open_sink log →
  (∀ k, fwd = Some k → open_sink k) →
  ∃ log' fwd',
    relay_line line log fwd = Ok (log', fwd') ∧
    open_sink log' ∧
    sink_events log' = sink_events log ++ [Write line; Flush] ∧
    match fwd with
    | Some k => ∃ k', fwd' = Some k' ∧ open_sink k' ∧
                      sink_events k' = sink_events k ++ [Write line; Flush]
    | None => fwd' = None
    end.
Proof.
  unfold open_sink, relay_line, sink_write, sink_flush.
  intros Hlog Hfwd. rewrite Hlog. simpl.
  destruct fwd as [k|].
  - rewrite (Hfwd k eq_refl). simpl. eexists _, _. split; [reflexivity|].
    simpl. rewrite <- !app_assoc. eauto 10.
  - eexists _, _. split; [reflexivity|]. simpl. by rewrite <- !app_assoc.
Qed.


Lemma relay_loop_step st log fwd :
  relay_loop st log fwd =
  match readline st with
  | Raise e => Raise e
  | Ok (line, st') =>
      if String.eqb line "" then Ok (st', log, fwd)
      else match relay_line line log fwd with
           | Raise e => Raise e
           | Ok (log', fwd') => relay_loop st' log' fwd'
           end
  end.
Proof.
  funelim (relay_loop st log fwd).
  - by rewrite e1.
  - by rewrite Hread, e.
  - rewrite Hread, Hline, Heq. done.
  - rewrite Hread, Hline, Heq. done.
Qed.

Lemma take_line_length s :
  s ≠ EmptyString →
  (String.length (take_line s).2 < String.length s)%nat.
Proof.
  induction s as [|c s IH]; [done|]. intros _. simpl.
  destruct (Ascii.eqb c "010"); simpl; [lia|].
  destruct s as [|d s]; [simpl; lia|].
  specialize (IH ltac:(done)).
  destruct (take_line (String d s)) as [l r]. simpl in *. lia.
Qed.

Lemma relay_loop_open content :
  ∀ log fwd,
  open_sink log →
  (∀ k, fwd = Some k → open_sink k) →
  ∃ log' fwd',
    relay_loop {| unread := content; stream_closed := false |} log fwd =
      Ok ({| unread := ""; stream_closed := false |}, log', fwd') ∧
    open_sink log' ∧
    sink_events log' = sink_events log ++ relayed (split_lines content) ∧
    match fwd with
    | Some k => ∃ k', fwd' = Some k' ∧ open_sink k' ∧
                      sink_events k' =
                        sink_events k ++ relayed (split_lines content)
    | None => fwd' = None
    end.
Proof.
  remember (String.length content) as n eqn:Hn.
  revert content Hn.
  induction n as [n IH] using lt_wf_ind. intros content Hn log fwd Hlog Hfwd.
  rewrite relay_loop_step. unfold readline. simpl.
  destruct content as [|c s].
  - simpl. exists log, fwd. rewrite app_nil_r.
    repeat split; try done. destruct fwd as [k|]; [|done].
    exists k. rewrite app_nil_r. eauto.
  - destruct (take_line_split (String c s)) as [Hne Hsplit]; [done|].
    pose proof (take_line_length (String c s) ltac:(done)) as Hlen.
    destruct (take_line (String c s)) as [line rest].
    cbn [fst snd] in Hne, Hsplit, Hlen. simpl in Hlen, Hn.
    destruct (String.eqb_spec line ""); [done|].
    destruct (relay_line_open line log fwd Hlog Hfwd)
      as (log1 & fwd1 & -> & Hlog1 & Hev1 & Hfwd1).
    destruct (IH (String.length rest) ltac:(lia) rest eq_refl log1 fwd1)
      as (log2 & fwd2 & Hloop & Hlog2 & Hev2 & Hfwd2); [done| |].
    { intros k ->. destruct fwd as [k0|]; [|done].
      destruct Hfwd1 as (k' & [= <-] & Hk' & _). done. }
    exists log2, fwd2. split; [done|]. split; [done|].
    rewrite Hsplit. unfold relayed in *. simpl. split.
    + rewrite Hev2, Hev1. by rewrite <- app_assoc.
    + destruct fwd as [k0|].
      * destruct Hfwd1 as (k1 & -> & Hk1 & Hevk1).
        destruct Hfwd2 as (k2 & -> & Hk2 & Hevk2).
        exists k2. repeat split; try done.
        rewrite Hevk2, Hevk1. by rewrite <- app_assoc.
      * subst fwd1. done.
Qed.

Lemma append_cons c s t : String c s +:+ t = String c (s +:+ t).
Proof. reflexivity. Qed.

Lemma append_nil_l t : "" +:+ t = t.
Proof. reflexivity. Qed.

Lemma append_nil_r s : s +:+ "" = s.
Proof. induction s as [|c s IH]; [done|]. by rewrite append_cons, IH. Qed.

Lemma append_assoc s t u : (s +:+ t) +:+ u = s +:+ (t +:+ u).
Proof. induction s as [|c s IH]; [done|]. by rewrite !append_cons, IH. Qed.

Lemma concat_cons_empty l ls :
  String.concat "" (l :: ls) = l +:+ String.concat "" ls.
Proof.
  destruct ls as [|l' ls]; [|done]. cbn [String.concat].
  by rewrite append_nil_r.
Qed.

(** The lines [readline] delivers are the stream cut after each line feed:
    put together again they are the stream, and none is empty. *)
Lemma split_lines_concat s : String.concat "" (split_lines s) = s.
Proof.
  induction s as [|c s IH]; [done|].
  cbn [split_lines]. destruct (Ascii.eqb c "010").
  - by rewrite concat_cons_empty, IH.
  - destruct (split_lines s) as [|l ls].
    + cbn [String.concat] in *. by rewrite <- IH.
    + rewrite concat_cons_empty in *. by rewrite append_cons, IH.
Qed.

Lemma split_lines_nonempty s : Forall (fun l => l ≠ EmptyString) (split_lines s).
Proof.
  induction s as [|c s IH]; [constructor|].
  cbn [split_lines]. destruct (Ascii.eqb c "010").
  - by constructor.
  - destruct (split_lines s) as [|l ls]; [by repeat constructor|].
    apply Forall_cons in IH as [_ IH]. by constructor.
Qed.

(** C6. On an open stream and open sinks, [_stream_reader] ends normally at
    end-of-stream and has then written to the log sink every line of the
    stream, in arrival order, each write followed by a flush; a mirror
    sink, when given, has received the same writes and flushes in the same
    order.  The lines are the whole stream, and the stream is left closed. *)
Theorem stream_reader_relays content log fwd :
  open_sink log →
  (∀ k, fwd = Some k → open_sink k) →
  ∃ st' log' fwd',
    _stream_reader {| unread := content; stream_closed := false |} log fwd =
      Ok (st', log', fwd') ∧
    sink_events log' = sink_events log ++ relayed (split_lines content) ∧
    match fwd with
    | Some k => ∃ k', fwd' = Some k' ∧
                      sink_events k' =
                        sink_events k ++ relayed (split_lines content)
    | None => fwd' = None
    end ∧
    String.concat "" (split_lines content) = content ∧
    Forall (fun line => line ≠ EmptyString) (split_lines content) ∧
    unread st' = "" ∧ stream_closed st' = true.
Proof.
  intros Hlog Hfwd.
  destruct (relay_loop_open content log fwd Hlog Hfwd)
    as (log' & fwd' & Hloop & _ & Hev & Hmirror).
  unfold _stream_reader. rewrite Hloop. simpl.
  eexists _, log', fwd'. split; [reflexivity|]. split; [done|]. split.
  - destruct fwd as [k|]; [|done].
    destruct Hmirror as (k' & -> & _ & Hk'). eauto.
  - split; [apply split_lines_concat|].
    split; [apply split_lines_nonempty|]. done.
Qed.

Lemma stream_reader_relays_witness :
  ∃ st' log' fwd',
    _stream_reader
      {| unread := "ab" +:+ nl +:+ "c"; stream_closed := false |}
      {| sink_events := []; sink_closed := false |}
      (Some {| sink_events := [Flush]; sink_closed := false |}) =
      Ok (st', log', fwd') ∧
    sink_events log' =
      [Write ("ab" +:+ nl); Flush; Write "c"; Flush].
Proof.
  destruct (stream_reader_relays ("ab" +:+ nl +:+ "c")
              {| sink_events := []; sink_closed := false |}
              (Some {| sink_events := [Flush]; sink_closed := false |}))
    as (st' & log' & fwd' & H1 & H2 & _).
  - reflexivity.
  - intros k [= <-]. reflexivity.
  - exists st', log', fwd'. split; [exact H1 | exact H2].
Defined.

(** ** The supervisor *)

Lemma kill_process_tree_run h proc p w :
  handles w !! proc = Some p →
  run (_kill_process_tree h proc) w =
  (Ok tt,
   set_pgroups (pgroups w ∖ {[pid p]})
     (set_syscalls (syscalls w ++ [kill_request h (pid p)]) w)).
Proof.
  intros Hp. unfold _kill_process_tree, kill_request, handle.
  cbn [run mbind io_bind]. rewrite Hp.
  destruct (String.eqb (sys_platform h) "win32"); [reflexivity|].
  unfold try_except, os_killpg. cbn [run pgroups set_syscalls].
  case_bool_decide as Hin; [reflexivity|].
  cbn [run mret io_ret]. f_equal.
  destruct w; unfold set_pgroups, set_syscalls; simpl in *. f_equal.
  symmetry. apply difference_disjoint_L. by apply disjoint_singleton_r.
Qed.

(** C8. On a handle whose process has already exited, the process-tree
    terminator returns without raising, the first time and the second, and
    the handle keeps its recorded exit status. *)
Theorem kill_process_tree_exited h proc p rc w :
  handles w !! proc = Some p →
  returncode p = Some rc →
  ∃ w1 w2,
    run (_kill_process_tree h proc) w = (Ok tt, w1) ∧
    run (_kill_process_tree h proc) w1 = (Ok tt, w2) ∧
    handles w1 !! proc = Some p ∧
    handles w2 !! proc = Some p ∧
    (returncode <$> handles w2 !! proc) = Some (Some rc).
Proof.
  intros Hp Hrc.
  rewrite (kill_process_tree_run h proc p w Hp).
  eexists _, _. split; [reflexivity|].
  rewrite (kill_process_tree_run h proc p) by exact Hp.
  split; [reflexivity|]. cbn [handles set_pgroups set_syscalls].
  rewrite Hp. simpl. by rewrite Hrc.
Qed.

Lemma kill_process_tree_exited_witness :
  ∃ w1 w2,
    run (_kill_process_tree Examples.posix 0%nat)
        (set_handles [{| pid := 7; returncode := Some 0 |}]
           Examples.fresh_world) = (Ok tt, w1) ∧
    run (_kill_process_tree Examples.posix 0%nat) w1 = (Ok tt, w2) ∧
    handles w2 !! 0%nat = Some {| pid := 7; returncode := Some 0 |}.
Proof.
  destruct (kill_process_tree_exited Examples.posix 0%nat
              {| pid := 7; returncode := Some 0 |} 0
              (set_handles [{| pid := 7; returncode := Some 0 |}]
                 Examples.fresh_world))
    as (w1 & w2 & H1 & H2 & _ & H3 & _).
  - reflexivity.
  - reflexivity.
  - exists w1, w2. split; [exact H1|]. split; [exact H2 | exact H3].
Defined.

Ltac io_step :=
  cbn [run mbind io_bind mret io_ret]; cbv zeta.

Lemma launch_run h c raw w l w0 :
  run (launch h c raw) w = (Ok l, w0) →
  _load_config raw = Ok (config l) ∧
  process l = length (handles w) ∧
  start_time l = now w ∧
  w0 = launched_world h c l w.
Proof.
  unfold launch, lift. io_step.
  destruct (_load_config raw) as [config|]; [|discriminate].
  io_step.
  destruct (getitem config "patina_qemu_repo" ≫= as_path) as [repo|];
    [|discriminate].
  io_step.
  destruct (getitem config "log_file" ≫= as_path) as [log_path|];
    [|discriminate].
  unfold mkdir_parents. io_step.
  case_bool_decide; [discriminate|]. io_step.
  destruct (main_cmd h config _) as [cmd|]; [|discriminate].
  unfold monotonic, open_append, Popen. io_step. cbn [dirs set_dirs].
  case_bool_decide; [discriminate|]. io_step.
  destruct (argv_error h cmd); [discriminate|].
  destruct (child_spawns c); [|discriminate].
  cbn [negb]. intros [= <- <-]. done.
Qed.

Lemma relay_open content log fwd :
  open_sink log →
  (∀ k, fwd = Some k → open_sink k) →
  ∃ log' fwd',
    relay content log fwd = (log', fwd') ∧
    sink_events log' = sink_events log ++ relayed (split_lines content) ∧
    match fwd with
    | Some k => ∃ k', fwd' = Some k' ∧
                      sink_events k' =
                        sink_events k ++ relayed (split_lines content)
    | None => fwd' = None
    end.
Proof.
  intros Hlog Hfwd.
  destruct (relay_loop_open content log fwd Hlog Hfwd)
    as (log' & fwd' & Hloop & _ & Hev & Hmirror).
  unfold relay, _stream_reader. rewrite Hloop. cbn [mbind result_bind mret result_ret].
  exists log', fwd'. split; [done|]. split; [done|].
  destruct fwd as [k|]; [|done].
  destruct Hmirror as (k' & -> & _ & Hk'). eauto.
Qed.

Lemma relay_threads_run c p w :
  run (relay_threads c p) w =
  (Ok tt,
   set_files (<[p := default "" (files w !! p) +:+ logged c]> (files w))
     (set_console (console w ++ mirrored c) w)).
Proof.
  unfold relay_threads. cbn [run].
  destruct (relay_open (child_stdout c)
              {| sink_events := []; sink_closed := false |} None)
    as (out_log & out_fwd & -> & Hout & _); [done..|].
  destruct (relay_open (child_stderr c)
              {| sink_events := []; sink_closed := false |}
              (Some {| sink_events := console w; sink_closed := false |}))
    as (err_log & err_fwd & -> & Herr & (k' & -> & Hk')).
  { done. }
  { by intros k [= <-]. }
  cbv zeta. cbn [sink_events app] in *. rewrite Hout, Herr.
  unfold append_bytes. cbn [run default from_option id]. rewrite Hk'.
  reflexivity.
Qed.

Ltac io_red :=
  cbn [run mbind io_bind mret io_ret try_finally try_except
       sleep join lift monotonic
       set_files set_timings set_dirs set_console set_pgroups set_handles
       set_syscalls set_now
       files timings dirs console pgroups handles syscalls now
       pid returncode];
  cbv zeta.

#[local] Arguments Popen_wait : simpl never.
#[local] Arguments _kill_process_tree : simpl never.
#[local] Arguments relay_threads : simpl never.

Lemma run_bind {A B : Type} (m : io A) (k : A → io B) w :
  run (m ≫= k) w =
  match run m w with
  | (Ok a, w') => run (k a) w'
  | (Raise e, w') => (Raise e, w')
  end.
Proof. reflexivity. Qed.

(** The timing file is written unless its path is a directory. *)
Lemma write_timing_run h p x w :
  path_with_suffix h p ".timing.json" ∉ dirs w →
  run (_write_timing h p x) w =
  (Ok tt,
   set_timings
     (<[path_with_suffix h p ".timing.json" := make_timing_data x]>
        (timings w)) w).
Proof.
  intros Hdir. unfold _write_timing. cbn [run].
  by rewrite bool_decide_eq_false_2.
Qed.




Lemma wait_in_time t rc proc timeout w pd :
  handles w !! proc = Some {| pid := pd; returncode := None |} →
  Qle_bool t (inject_Z timeout) = true →
  run (Popen_wait (Some (t, rc)) proc timeout) w =
  (Ok rc,
   set_now (now w + t)
     (set_handles
        (<[proc := {| pid := pd; returncode := Some rc |}]> (handles w)) w)).
Proof.
  intros Hp Ht. unfold Popen_wait, handle. io_red. rewrite Hp. io_red.
  rewrite Ht. reflexivity.
Qed.



Lemma await_in_time_write h c l w0 t rc :
  handles w0 !! process l =
    Some {| pid := child_pid c; returncode := None |} →
  child_exit c = Some (t, rc) →
  (t <= inject_Z SUBPROCESS_TIMEOUT_SECONDS)%Q →
  let w1 :=
    drained c l
      (set_now (now w0 + t)
         (set_handles
            (<[process l := {| pid := child_pid c; returncode := Some rc |}]>
               (handles w0)) w0)) in
  run (await h c l) w0 =
  match run (_write_timing h (log_path l) (now w1 - start_time l)) w1 with
  | (Ok _, w2) => (Ok (rc, false), w2)
  | (Raise e, w2) => (Raise e, w2)
  end.
Proof.
  intros Hp Hexit Ht. apply Qle_bool_iff in Ht.
  unfold await, drained, join_seconds. io_red. rewrite Hexit, run_bind.
  rewrite (wait_in_time t rc _ _ _ (child_pid c) Hp Ht). io_red.
  rewrite run_bind, relay_threads_run. io_red.
  reflexivity.
Qed.




Lemma await_in_time_world h c l w0 t rc :
  handles w0 !! process l =
    Some {| pid := child_pid c; returncode := None |} →
  child_exit c = Some (t, rc) →
  (t <= inject_Z SUBPROCESS_TIMEOUT_SECONDS)%Q →
  path_with_suffix h (log_path l) ".timing.json" ∉ dirs w0 →
  run (await h c l) w0 =
  (Ok (rc, false),
   finalized h c l
     (set_now (now w0 + t)
        (set_handles
           (<[process l := {| pid := child_pid c; returncode := Some rc |}]>
              (handles w0)) w0))).
Proof.
  intros Hp Hexit Ht Hdir.
  rewrite (await_in_time_write h c l w0 t rc Hp Hexit Ht). cbv zeta.
  rewrite write_timing_run by exact Hdir. reflexivity.
Qed.





Lemma await_in_time h c l w0 t rc :
  handles w0 !! process l =
    Some {| pid := child_pid c; returncode := None |} →
  child_exit c = Some (t, rc) →
  (t <= inject_Z SUBPROCESS_TIMEOUT_SECONDS)%Q →
  path_with_suffix h (log_path l) ".timing.json" ∉ dirs w0 →
  ∃ w1,
    run (await h c l) w0 = (Ok (rc, false), w1) ∧
    syscalls w1 = syscalls w0 ∧
    handles w1 =
      <[process l := {| pid := child_pid c; returncode := Some rc |}]>
        (handles w0) ∧
    timings w1 =
      <[path_with_suffix h (log_path l) ".timing.json" :=
          make_timing_data (now w1 - start_time l)]> (timings w0).
Proof.
  intros Hp Hexit Ht Hdir. eexists.
  split; [exact (await_in_time_world h c l w0 t rc Hp Hexit Ht Hdir)|].
  done.
Qed.

Lemma main_run h c raw w l w0 rc flag w1 :
  run (launch h c raw) w = (Ok l, w0) →
  run (await h c l) w0 = (Ok (rc, flag), w1) →
  run (main h c raw) w = run (report h l rc flag) w1.
Proof.
  intros Hl Ha. unfold main. rewrite run_bind, Hl, run_bind, Ha. reflexivity.
Qed.

Lemma launched_handle h c raw w l w0 :
  run (launch h c raw) w = (Ok l, w0) →
  handles w0 !! process l =
    Some {| pid := child_pid c; returncode := None |} ∧
  syscalls w0 = syscalls w.
Proof.
  intros Hl. apply launch_run in Hl as (_ & Hproc & _ & ->).
  unfold launched_world. io_red. split; [|done].
  by apply list_lookup_middle.
Qed.




Lemma report_boot_failed h l rc w1 :
  boot_failed h l w1 = true →
  run (report h l rc false) w1 =
  (Ok {| exit_code := 1; timed_out := false |},
   set_files
     (<[log_path l :=
          default "" (files w1 !! log_path l) +:+ failure_msg h l]>
        (files w1))
     (set_console (console w1 ++ [Write (failure_msg h l); Flush]) w1)).
Proof.
  unfold boot_failed. intros H.
  apply andb_true_iff in H as [H Hlogs].
  apply andb_true_iff in H as [Hsar Hdrive].
  unfold report, path_exists, console_write, console_flush, append_bytes.
  rewrite Hsar. io_red. rewrite Hdrive. io_red. rewrite Hlogs. io_red.
  by rewrite <- app_assoc.
Qed.

Lemma report_boot_ok h l rc w1 :
  boot_failed h l w1 = false →
  run (report h l rc false) w1 =
  (Ok {| exit_code := rc; timed_out := false |}, w1).
Proof.
  unfold boot_failed, report, path_exists. intros H.
  destruct (truthy (get (config l) "shutdown_after_run")); [|done].
  io_red. destruct (exists_in w1 (shutdown_drive h l)); [|done].
  io_red. destruct (exists_in w1 (uefi_logs h l)); [done|].
  discriminate H.
Qed.

(** C2, as the specification words it, fails: a child that exits with 0
    in time, with the shutdown check asked for and a [shutdown_drive]
    directory without [UefiLogs], makes [main] return 1, not 0, also when
    the timing file can be written. *)
Lemma main_in_time_counterexample :
  ¬ (∀ h c raw w l w0 t rc,
       run (launch h c raw) w = (Ok l, w0) →
       child_exit c = Some (t, rc) →
       (t <= inject_Z SUBPROCESS_TIMEOUT_SECONDS)%Q →
       path_with_suffix h (log_path l) ".timing.json" ∉ dirs w0 →
       ∃ w', run (main h c raw) w =
               (Ok {| exit_code := rc; timed_out := false |}, w')).
Proof.
  intros H.
  pose (w := set_dirs {["qemu/Build/shutdown_drive"]} Examples.fresh_world).
  pose (r := run (launch Examples.posix (Examples.child_exits 0)
                    Examples.sample_raw) w).
  destruct (H Examples.posix (Examples.child_exits 0) Examples.sample_raw w
              (Examples.returned Examples.no_launch r) r.2 2%Q 0) as (w' & Hw').
  - vm_compute. reflexivity.
  - reflexivity.
  - vm_compute. discriminate.
  - apply (bool_decide_unpack _). vm_compute. exact I.
  - vm_compute in Hw'. discriminate Hw'.
Qed.

(** C2, amended. When the child has been launched and exits within the
    300 seconds, [timed_out] is false and [main] returns the child's exit
    code, unless the post-run check fails, in which case it returns 1.
    [main] returns provided that the timing file can be written: its path
    is not a directory. *)
Theorem main_in_time h c raw w l w0 t rc :
  run (launch h c raw) w = (Ok l, w0) →
  child_exit c = Some (t, rc) →
  (t <= inject_Z SUBPROCESS_TIMEOUT_SECONDS)%Q →
  path_with_suffix h (log_path l) ".timing.json" ∉ dirs w0 →
  ∃ w1 w',
    run (await h c l) w0 = (Ok (rc, false), w1) ∧
    run (main h c raw) w =
      (Ok {| exit_code := if boot_failed h l w1 then 1 else rc;
             timed_out := false |}, w') ∧
    syscalls w' = syscalls w.
Proof.
  intros Hl Hexit Ht Hdir.
  destruct (launched_handle h c raw w l w0 Hl) as [Hp Hsys].
  destruct (await_in_time h c l w0 t rc Hp Hexit Ht Hdir)
    as (w1 & Ha & Hsys1 & _ & _).
  exists w1. rewrite (main_run h c raw w l w0 _ _ w1 Hl Ha).
  destruct (boot_failed h l w1) eqn:Hboot.
  - rewrite report_boot_failed by done. eexists. split; [done|].
    split; [reflexivity|]. io_red. congruence.
  - rewrite report_boot_ok by done. eexists. split; [done|].
    split; [reflexivity|]. congruence.
Qed.

Lemma main_in_time_witness :
  let r := run (launch Examples.posix (Examples.child_exits 3)
                  Examples.sample_raw) Examples.fresh_world in
  ∃ w1 w',
    run (await Examples.posix (Examples.child_exits 3)
           (Examples.returned Examples.no_launch r)) r.2 = (Ok (3, false), w1) ∧
    run (main Examples.posix (Examples.child_exits 3) Examples.sample_raw)
        Examples.fresh_world =
      (Ok {| exit_code :=
               if boot_failed Examples.posix (Examples.returned Examples.no_launch r) w1
               then 1 else 3;
             timed_out := false |}, w') ∧
    syscalls w' = [].
Proof.
  intros r.
  apply (main_in_time Examples.posix (Examples.child_exits 3)
           Examples.sample_raw Examples.fresh_world
           (Examples.returned Examples.no_launch r) r.2 2%Q 3).
  - vm_compute. reflexivity.
  - reflexivity.
  - vm_compute. discriminate.
  - apply (bool_decide_unpack _). vm_compute. exact I.
Defined.

(** C3, as the specification words it, fails: with the shutdown check
    asked for, a run that did not time out and no [UefiLogs] directory
    (there is no [shutdown_drive] directory at all), [main] returns the
    child's 0 and writes no message. *)
Lemma main_shutdown_check_counterexample :
  ¬ (∀ h c raw w l w0 rc w1,
       run (launch h c raw) w = (Ok l, w0) →
       run (await h c l) w0 = (Ok (rc, false), w1) →
       truthy (get (config l) "shutdown_after_run") = true →
       exists_in w1 (uefi_logs h l) = false →
       ∃ w', run (main h c raw) w =
               (Ok {| exit_code := 1; timed_out := false |}, w') ∧
             console w' = console w1 ++ [Write (failure_msg h l); Flush]).
Proof.
  intros H.
  pose (r := run (launch Examples.posix (Examples.child_exits 0)
                    Examples.sample_raw) Examples.fresh_world).
  pose (a := run (await Examples.posix (Examples.child_exits 0)
                    (Examples.returned Examples.no_launch r)) r.2).
  destruct (H Examples.posix (Examples.child_exits 0) Examples.sample_raw
              Examples.fresh_world (Examples.returned Examples.no_launch r) r.2 0 a.2)
    as (w' & Hw' & _).
  - vm_compute. reflexivity.
  - vm_compute. reflexivity.
  - vm_compute. reflexivity.
  - vm_compute. reflexivity.
  - vm_compute in Hw'. discriminate Hw'.
Qed.

(** C3, amended. With the shutdown check asked for and a run that did not
    time out, whatever the child's exit code: when the [shutdown_drive]
    directory exists and [UefiLogs] does not exist in it, [main] returns 1,
    writes the failure message to the console, flushed, and appends it to
    the log file; when the [shutdown_drive] directory is absent or
    [UefiLogs] exists, [main] returns the child's exit code and writes
    nothing. *)
Theorem main_shutdown_check h c raw w l w0 rc w1 :
  run (launch h c raw) w = (Ok l, w0) →
  run (await h c l) w0 = (Ok (rc, false), w1) →
  truthy (get (config l) "shutdown_after_run") = true →
  (exists_in w1 (shutdown_drive h l) = true →
   exists_in w1 (uefi_logs h l) = false →
   ∃ w',
     run (main h c raw) w =
       (Ok {| exit_code := 1; timed_out := false |}, w') ∧
     console w' = console w1 ++ [Write (failure_msg h l); Flush] ∧
     files w' !! log_path l =
       Some (default "" (files w1 !! log_path l) +:+ failure_msg h l)) ∧
  (exists_in w1 (shutdown_drive h l) = false ∨
   exists_in w1 (uefi_logs h l) = true →
   run (main h c raw) w =
     (Ok {| exit_code := rc; timed_out := false |}, w1)).
Proof.
  intros Hl Ha Hsar.
  rewrite (main_run h c raw w l w0 _ _ w1 Hl Ha). split.
  - intros Hdrive Hlogs. rewrite report_boot_failed.
    + eexists. split; [reflexivity|]. io_red. split; [done|].
      by rewrite lookup_insert_eq.
    + unfold boot_failed. by rewrite Hsar, Hdrive, Hlogs.
  - intros Hok. apply report_boot_ok. unfold boot_failed. rewrite Hsar.
    destruct Hok as [-> | ->]; [done|]. by rewrite andb_false_r.
Qed.

Lemma main_shutdown_check_witness :
  let w := set_dirs {["qemu/Build/shutdown_drive"]} Examples.fresh_world in
  let r := run (launch Examples.posix (Examples.child_exits 2)
                  Examples.sample_raw) w in
  let a := run (await Examples.posix (Examples.child_exits 2)
                  (Examples.returned Examples.no_launch r)) r.2 in
  ∃ w',
    run (main Examples.posix (Examples.child_exits 2) Examples.sample_raw) w =
      (Ok {| exit_code := 1; timed_out := false |}, w') ∧
    console w' =
      console a.2
      ++ [Write (failure_msg Examples.posix (Examples.returned Examples.no_launch r)); Flush].
Proof.
  intros w r a.
  destruct (main_shutdown_check Examples.posix (Examples.child_exits 2)
              Examples.sample_raw w (Examples.returned Examples.no_launch r) r.2 2 a.2)
    as [Hfail _].
  - vm_compute. reflexivity.
  - vm_compute. reflexivity.
  - vm_compute. reflexivity.
  - destruct Hfail as (w' & H1 & H2 & _).
    + vm_compute. reflexivity.
    + vm_compute. reflexivity.
    + exists w'. split; [exact H1 | exact H2].
Defined.

(** ** The timing file *)

Lemma round_half_even_comp q q' :
  (q == q')%Q → round_half_even q = round_half_even q'.
Proof.
  intros H. unfold round_half_even.
  rewrite <- (Qfloor_comp _ _ H).
  assert (Hc : ((q - inject_Z (Qfloor q)) ?= 1 # 2)%Q =
               ((q' - inject_Z (Qfloor q)) ?= 1 # 2)%Q).
  { apply Qcompare_comp; [lra|reflexivity]. }
  by rewrite Hc.
Qed.

Lemma round_half_even_near q :
  (inject_Z (round_half_even q) - (1 # 2) <= q)%Q ∧
  (q <= inject_Z (round_half_even q) + (1 # 2))%Q.
Proof.
  unfold round_half_even.
  pose proof (Qfloor_le q) as Hlo. pose proof (Qlt_floor q) as Hhi.
  rewrite inject_Z_plus in Hhi. change (inject_Z 1) with 1%Q in Hhi.
  destruct (Qcompare_spec (q - inject_Z (Qfloor q)) (1 # 2)) as [He|Hl|Hg];
    [destruct (Z.even (Qfloor q))| |];
    rewrite ?inject_Z_plus; change (inject_Z 1) with 1%Q; split; lra.
Qed.

Lemma round_half_even_range q (a b : Z) :
  (inject_Z a <= q)%Q → (q <= inject_Z b)%Q →
  a ≤ round_half_even q ≤ b.
Proof.
  intros Ha Hb. destruct (round_half_even_near q) as [Hlo Hhi].
  split.
  - apply Z.lt_pred_le. rewrite Zlt_Qlt. unfold Z.pred.
    rewrite inject_Z_plus. change (inject_Z (-1)) with (-1)%Q. lra.
  - apply Z.lt_succ_r. rewrite Zlt_Qlt. unfold Z.succ.
    rewrite inject_Z_plus. change (inject_Z 1) with 1%Q. lra.
Qed.

Lemma Qfloor_bounds q :
  (inject_Z (Qfloor q) <= q)%Q ∧ (q < inject_Z (Qfloor q) + 1)%Q.
Proof.
  split; [apply Qfloor_le|]. pose proof (Qlt_floor q) as H.
  rewrite inject_Z_plus in H. exact H.
Qed.

(** [divmod(x, 60)]: whole minutes and a rest of less than a minute. *)
Lemma divmod_60 x :
  let '(minutes, secs) := divmod x 60 in
  minutes = Qfloor (x / 60) ∧
  (secs == x - 60 * inject_Z minutes)%Q ∧
  (0 <= secs)%Q ∧ (secs < 60)%Q ∧
  (1 ≤ minutes ↔ (60 <= x)%Q) ∧
  ((0 <= x)%Q → 0 ≤ minutes).
Proof.
  unfold divmod. change (inject_Z 60) with 60%Q.
  set (m := Qfloor (x / 60)).
  destruct (Qfloor_bounds (x / 60)) as [Hlo Hhi]. fold m in Hlo, Hhi.
  assert (Hx : (x == 60 * (x / 60))%Q) by (field).
  rewrite inject_Z_mult. change (inject_Z 60) with 60%Q.
  split; [done|]. split; [ring|]. clearbody m.
  set (a := (x / 60)%Q) in *. clearbody a.
  split; [lra|]. split; [lra|]. split.
  - split; intros H.
    + rewrite Zle_Qle in H. change (inject_Z 1) with 1%Q in H. lra.
    + apply Z.lt_pred_le. rewrite Zlt_Qlt. unfold Z.pred.
      rewrite inject_Z_plus. change (inject_Z (-1)) with (-1)%Q.
      change (inject_Z 1) with 1%Q. lra.
  - intros H. apply Z.lt_pred_le. rewrite Zlt_Qlt. unfold Z.pred.
    rewrite inject_Z_plus. change (inject_Z (-1)) with (-1)%Q.
    change (inject_Z 0) with 0%Q. lra.
Qed.

Lemma str_int_numeral z : 0 ≤ z → numeral (str_int z) = true.
Proof.
  intros Hz. unfold str_int, numeral.
  assert (Huint : ∀ d, d ≠ Decimal.Nil →
            negb (String.eqb (NilZero.string_of_uint d) "")
            && all_digits (NilZero.string_of_uint d) = true).
  { intros d Hd.
    assert (Hall : ∀ d, all_digits (NilEmpty.string_of_uint d) = true)
      by (intros d'; induction d'; simpl; auto).
    destruct d; try done; simpl; apply Hall. }
  destruct z as [|p|p]; [reflexivity| |lia].
  simpl. apply Huint, Unsigned.to_uint_nonnil.
Qed.

Lemma str_int_digit d :
  0 ≤ d ≤ 9 → String.length (str_int d) = 1%nat ∧ zfill 1 (str_int d) = str_int d.
Proof.
  intros Hd.
  assert (H : d = 0 ∨ d = 1 ∨ d = 2 ∨ d = 3 ∨ d = 4 ∨ d = 5 ∨ d = 6
              ∨ d = 7 ∨ d = 8 ∨ d = 9) by lia.
  repeat (destruct H as [-> | H]; [by vm_compute|]). subst. by vm_compute.
Qed.

(** C4. A duration under one minute is displayed as its seconds rounded
    to one decimal place and an [s]; a duration of one minute or more as
    its whole minutes, an [m], a space, the remaining seconds rounded to a
    whole number, and an [s].  45.3 seconds (the rational and the double
    nearest to it) give ["45.3s"], 125 seconds give ["2m 5s"]. *)
Theorem elapsed_display_format (x : Q) :
  (0 <= x)%Q →
  ((x < 60)%Q →
   ∃ n : Z,
     elapsed_display (make_timing_data x) =
       str_int (n / 10) +:+ "." +:+ str_int (n mod 10) +:+ "s" ∧
     numeral (str_int (n / 10)) = true ∧
     numeral (str_int (n mod 10)) = true ∧
     String.length (str_int (n mod 10)) = 1%nat ∧
     (inject_Z n - (1 # 2) <= 10 * x)%Q ∧
     (10 * x <= inject_Z n + (1 # 2))%Q) ∧
  ((60 <= x)%Q →
   ∃ m s : Z,
     elapsed_display (make_timing_data x) =
       str_int m +:+ "m " +:+ str_int s +:+ "s" ∧
     numeral (str_int m) = true ∧
     numeral (str_int s) = true ∧
     m = Qfloor (x / 60) ∧ 1 ≤ m ∧ 0 ≤ s ≤ 60 ∧
     (inject_Z s - (1 # 2) <= x - 60 * inject_Z m)%Q ∧
     (x - 60 * inject_Z m <= inject_Z s + (1 # 2))%Q) ∧
  elapsed_display (make_timing_data (453 # 10)) = "45.3s" ∧
  elapsed_display
    (make_timing_data (3187704111248179 # 70368744177664)) = "45.3s" ∧
  elapsed_display (make_timing_data 125) = "2m 5s".
Proof.
  intros Hx.
  pose proof (divmod_60 x) as Hdm. unfold make_timing_data.
  destruct (divmod x 60) as [m secs].
  destruct Hdm as (Hm & Hsecs & Hs0 & Hs60 & Hmin & Hm0).
  specialize (Hm0 Hx). cbn [elapsed_display].
  split; [|split; [|by vm_compute]].
  - intros Hlt.
    assert (m = 0) as ->.
    { destruct (Z.le_gt_cases 1 m) as [H1|H1]; [|lia].
      apply Hmin in H1. lra. }
    change (1 <=? 0) with false. cbv iota. unfold format_f.
    change (10 ^ Z.of_nat 1) with 10.
    apply Qle_bool_iff in Hs0 as Hsign. rewrite Hsign.
    change (inject_Z 10) with 10%Q. change (inject_Z 0) with 0%Q in Hsecs.
    set (n := round_half_even (secs * 10)).
    destruct (round_half_even_near (secs * 10)) as [Hlo Hhi]. fold n in Hlo, Hhi.
    assert (Hn : 0 ≤ n ≤ 600).
    { apply round_half_even_range.
      - change (inject_Z 0) with 0%Q. lra.
      - change (inject_Z 600) with 600%Q. lra. }
    rewrite (Z.abs_eq n) by lia.
    assert (Hd : 0 ≤ n mod 10 ≤ 9) by (pose proof (Z.mod_pos_bound n 10); lia).
    destruct (str_int_digit (n mod 10) Hd) as [Hlen Hfill].
    exists n. rewrite Hfill, append_nil_l, !append_assoc.
    split; [done|].
    split; [apply str_int_numeral, Z.div_pos; lia|].
    split; [apply str_int_numeral; lia|].
    split; [done|]. split; lra.
  - intros Hge. apply Hmin in Hge as Hm1.
    apply Z.leb_le in Hm1 as Hleb. rewrite Hleb. unfold format_f.
    change (10 ^ Z.of_nat 0) with 1.
    apply Qle_bool_iff in Hs0 as Hsign. rewrite Hsign.
    change (inject_Z 1) with 1%Q.
    set (s := round_half_even (secs * 1)).
    destruct (round_half_even_near (secs * 1)) as [Hlo Hhi]. fold s in Hlo, Hhi.
    assert (Hs : 0 ≤ s ≤ 60).
    { apply round_half_even_range.
      - change (inject_Z 0) with 0%Q. lra.
      - change (inject_Z 60) with 60%Q. lra. }
    rewrite (Z.abs_eq s) by lia. rewrite Z.div_1_r.
    exists m, s. rewrite append_nil_l, append_nil_r.
    split; [done|].
    split; [apply str_int_numeral; lia|].
    split; [apply str_int_numeral; lia|].
    split; [done|]. split; [done|]. split; [done|]. split; lra.
Qed.

Lemma elapsed_display_format_witness :
  elapsed_display (make_timing_data 125) = "2m 5s".
Proof.
  destruct (elapsed_display_format 125) as (_ & _ & _ & _ & H).
  - vm_compute. discriminate.
  - exact H.
Defined.





(** ** The diagnostic extractor *)

Lemma diagnostic_block_more seen line s :
  diagnostic_block seen s → diagnostic_block (seen ++ [line]) s.
Proof.
  intros (before & start & conts & after & -> & Hs & Hstart & Hconts).
  exists before, start, conts, (after ++ [line]).
  split; [|done]. by simplify_list_eq.
Qed.

Lemma build_error_line_more seen line s :
  build_error_line seen s → build_error_line (seen ++ [line]) s.
Proof.
  intros [Hin Hre]. split; [|done]. apply elem_of_app. by left.
Qed.

Lemma sections_more seen line secs :
  Forall (fun s => diagnostic_block seen s ∨ build_error_line seen s) secs →
  Forall (fun s => diagnostic_block (seen ++ [line]) s
                   ∨ build_error_line (seen ++ [line]) s) secs.
Proof.
  intros Hall. eapply Forall_impl; [exact Hall|]. intros s [H|H].
  - left. by apply diagnostic_block_more.
  - right. by apply build_error_line_more.
Qed.

Lemma scan_line_inv seen st line :
  scan_inv seen st → scan_inv (seen ++ [line]) (scan_line st line).
Proof.
  intros (Hsecs & Hin & Hcur). unfold scan_line.
  apply (sections_more seen line) in Hsecs.
  assert (Hflush : current_section st ≠ [] →
            diagnostic_block (seen ++ [line]) (join nl (current_section st))).
  { intros Hne. destruct Hcur as [?|(before & start & conts & -> & Hc & Hs & Hf)];
      [done|].
    exists before, start, conts, [line]. rewrite Hc.
    split; [by simplify_list_eq|]. done. }
  destruct (re_match SECTION_START_RE line) eqn:Hstart.
  - split; [|split; [done|]].
    + cbn [sections]. destruct (current_section st) eqn:Hc; [done|].
      cbn [nonempty]. apply Forall_app. split; [done|].
      apply Forall_singleton. left. by apply Hflush.
    + right. exists seen, line, []. cbn [current_section]. done.
  - destruct (in_section st) eqn:Hi.
    + destruct (is_continuation line) eqn:Hcont.
      * split; [done|]. cbn [in_section current_section]. split.
        { by destruct (current_section st). }
        right. destruct Hcur as [Hc|(before & start & conts & -> & Hc & Hs & Hf)].
        { rewrite Hc in Hin. discriminate. }
        exists before, start, (conts ++ [line]). rewrite Hc.
        split; [by simplify_list_eq|]. split; [done|]. split; [done|].
        apply Forall_app. split; [done|]. by apply Forall_singleton.
      * assert (Hne : current_section st ≠ []).
        { intros Hc. rewrite Hc in Hin. discriminate. }
        split; [|split; [done|by left]]. cbn [sections].
        assert (Hs2 : Forall
                  (fun s => diagnostic_block (seen ++ [line]) s
                             ∨ build_error_line (seen ++ [line]) s)
                  (sections st ++ [join nl (current_section st)])).
        { apply Forall_app. split; [done|].
          apply Forall_singleton. left. by apply Hflush. }
        destruct (re_search BUILD_ERROR_RE line) eqn:Hb; [|done].
        apply Forall_app. split; [done|]. apply Forall_singleton. right.
        split; [|done]. apply elem_of_app. right.
        by apply list_elem_of_singleton.
    + destruct (re_search BUILD_ERROR_RE line) eqn:Hb.
      * split; [|split].
        { cbn [sections]. apply Forall_app. split; [done|].
          apply Forall_singleton. right. split; [|done].
          apply elem_of_app. right. by apply list_elem_of_singleton. }
        { done. }
        { cbn [current_section].
          destruct Hcur as [Hc|(b & s & cs & _ & Hc & _)]; [by left|].
          rewrite Hc in Hin. discriminate. }
      * unfold scan_inv. split; [done|]. split; [by rewrite Hi|].
        destruct Hcur as [Hc|(b & s & cs & _ & Hc & _)]; [by left|].
        rewrite Hc in Hin. discriminate.
Qed.

Lemma scan_lines_inv lines :
  ∀ seen st,
    scan_inv seen st →
    scan_inv (seen ++ lines) (foldl scan_line st lines).
Proof.
  induction lines as [|line lines IH]; intros seen st Hinv.
  - by rewrite app_nil_r.
  - cbn [foldl]. rewrite (cons_middle line), app_assoc.
    apply IH. by apply scan_line_inv.
Qed.

Lemma scan_continuations conts :
  ∀ st,
    in_section st = true →
    Forall (fun line => is_continuation line = true
                        ∧ re_match SECTION_START_RE line = false) conts →
    foldl scan_line st conts =
    {| sections := sections st;
       current_section := current_section st ++ conts;
       in_section := true |}.
Proof.
  induction conts as [|line conts IH]; intros st Hin Hall.
  - rewrite app_nil_r. destruct st. simpl in *. by rewrite Hin.
  - apply Forall_cons in Hall as [[Hcont Hstart] Hall].
    cbn [foldl].
    assert (Hst : scan_line st line =
                  {| sections := sections st;
                     current_section := current_section st ++ [line];
                     in_section := true |}).
    { unfold scan_line. by rewrite Hstart, Hin, Hcont. }
    rewrite Hst, IH by done. cbn [sections current_section].
    by rewrite <- app_assoc.
Qed.

(** C9. Every section that [extract_error_sections] returns is either a
    diagnostic block (a line of the input that matches the section-start
    markers, joined by line feeds with the lines that follow it in the
    input, all of which satisfy the continuation rules) or a single line
    of the input that matches the build-error markers; and a block that is
    still open when the input ends is the last section returned. *)
Theorem extract_error_sections_shape lines :
  Forall (fun s => diagnostic_block lines s ∨ build_error_line lines s)
    (extract_error_sections lines) ∧
  ∀ before start conts,
    lines = before ++ start :: conts →
    re_match SECTION_START_RE start = true →
    Forall (fun line => is_continuation line = true
                        ∧ re_match SECTION_START_RE line = false) conts →
    ∃ secs,
      extract_error_sections lines = secs ++ [join nl (start :: conts)].
Proof.
  split.
  - unfold extract_error_sections.
    set (st0 := {| sections := []; current_section := [];
                   in_section := false |}).
    assert (H0 : scan_inv [] st0).
    { split; [constructor|]. split; [done|]. by left. }
    apply (scan_lines_inv lines) in H0. rewrite app_nil_l in H0.
    destruct H0 as (Hsecs & _ & Hcur).
    destruct (current_section (foldl scan_line st0 lines)) as [|l ls] eqn:Hc;
      [done|].
    cbn [nonempty]. apply Forall_app. split; [done|].
    apply Forall_singleton. left.
    destruct Hcur as [?|(before & start & conts & -> & [= -> ->] & Hs & Hf)];
      [done|].
    exists before, start, conts, []. by rewrite app_nil_r.
  - intros before start conts -> Hstart Hconts.
    unfold extract_error_sections.
    rewrite foldl_app. cbn [foldl].
    set (st := foldl scan_line _ before).
    assert (Hst : ∃ secs, scan_line st start =
                          {| sections := secs; current_section := [start];
                             in_section := true |}).
    { unfold scan_line. rewrite Hstart. eauto. }
    destruct Hst as [secs ->].
    rewrite scan_continuations by done.
    cbn [current_section sections app nonempty]. eauto.
Qed.

Lemma extract_error_sections_shape_witness :
  ∃ secs,
    extract_error_sections
      [ "Compiling patina"; "error[E0425]: cannot find value";
        "  --> src/lib.rs:3:5"; "   |" ] =
    secs ++ [join nl [ "error[E0425]: cannot find value";
                       "  --> src/lib.rs:3:5"; "   |" ]].
Proof.
  destruct (extract_error_sections_shape
              [ "Compiling patina"; "error[E0425]: cannot find value";
                "  --> src/lib.rs:3:5"; "   |" ]) as [_ H].
  apply (H ["Compiling patina"] "error[E0425]: cannot find value"
           ["  --> src/lib.rs:3:5"; "   |"]).
  - reflexivity.
  - vm_compute. reflexivity.
  - repeat constructor.
Defined.

Lemma main_cmd_flags_witness :
  let config :=
    match _load_config Examples.sample_raw with
    | Ok config => config
    | Raise _ => ∅
    end in
  ∃ cmd,
    main_cmd Examples.posix config "run.py" = Ok cmd ∧
    take 2 cmd = [VStr "/usr/bin/python3"; VStr "run.py"].
Proof.
  intros config.
  destruct (main_cmd_flags Examples.posix Examples.sample_raw config "run.py")
    as (cmd & H1 & H2 & _).
  - vm_compute. reflexivity.
  - repeat constructor; vm_compute; eauto.
  - exists cmd. split; [exact H1 | exact H2].
Defined.

(** ** Further properties of the supervisor *)







(** A launch that raises has started no process, made no request to the
    operating system, and written nothing to the console, to a timing
    document or into a file. *)
Lemma launch_raises h c raw w e w' :
  run (launch h c raw) w = (Raise e, w') →
  handles w' = handles w ∧ pgroups w' = pgroups w ∧
  syscalls w' = syscalls w ∧ console w' = console w ∧
  timings w' = timings w ∧ now w' = now w ∧
  ∀ p data, files w !! p = Some data → files w' !! p = Some data.
Proof.
  unfold launch, lift. io_step.
  destruct (_load_config raw) as [config|]; [|by intros [= _ <-]].
  io_step.
  destruct (getitem config "patina_qemu_repo" ≫= as_path) as [repo|];
    [|by intros [= _ <-]].
  io_step.
  destruct (getitem config "log_file" ≫= as_path) as [log_path|];
    [|by intros [= _ <-]].
  unfold mkdir_parents. io_step.
  case_bool_decide; [by intros [= _ <-]|]. io_step.
  destruct (main_cmd h config _) as [cmd|]; [|by intros [= _ <-]].
  unfold monotonic, open_append, Popen. io_step. cbn [dirs set_dirs].
  case_bool_decide; [by intros [= _ <-]|]. io_step.
  assert (Hfiles : ∀ p data,
            files w !! p = Some data →
            <[log_path := default "" (files w !! log_path)]> (files w) !! p
            = Some data).
  { intros p data Hp. destruct (decide (log_path = p)) as [->|Hne].
    - by rewrite lookup_insert_eq, Hp.
    - by rewrite lookup_insert_ne. }
  destruct (argv_error h cmd); [by intros [= _ <-]|].
  destruct (child_spawns c); cbn [negb]; [discriminate|].
  by intros [= _ <-].
Qed.

(** X3. A failure of the launch is fatal and propagated at once: when
    the configuration, the log file or the start of the child raises,
    [main] raises the same exception, and then no process has been
    started, no request made to the operating system, nothing written to
    the console or to a timing document, no file's content changed, and no
    time spent waiting. *)
Theorem launch_failure_propagates h c raw w e w' :
  run (launch h c raw) w = (Raise e, w') →
  run (main h c raw) w = (Raise e, w') ∧
  handles w' = handles w ∧ pgroups w' = pgroups w ∧
  syscalls w' = syscalls w ∧ console w' = console w ∧
  timings w' = timings w ∧ now w' = now w ∧
  ∀ p data, files w !! p = Some data → files w' !! p = Some data.
Proof.
  intros Hl. split.
  - unfold main. by rewrite run_bind, Hl.
  - by apply (launch_raises h c raw w e w').
Qed.

Lemma launch_failure_propagates_witness :
  let raw := <["platform" := VStr (String "000" "Q35")]> Examples.sample_raw in
  run (main Examples.posix (Examples.child_exits 0) ∅) Examples.fresh_world
    = (Raise (KeyError "patina_qemu_repo"), Examples.fresh_world) ∧
  (run (main Examples.posix (Examples.child_exits 0) raw)
     Examples.fresh_world).1 = Raise ValueError.
Proof.
  intros raw. split.
  - apply (launch_failure_propagates Examples.posix (Examples.child_exits 0)
             ∅ Examples.fresh_world (KeyError "patina_qemu_repo")
             Examples.fresh_world).
    vm_compute. reflexivity.
  - pose (r := run (launch Examples.posix (Examples.child_exits 0) raw)
                 Examples.fresh_world).
    destruct (launch_failure_propagates Examples.posix
                (Examples.child_exits 0) raw Examples.fresh_world
                ValueError r.2) as [H _].
    + vm_compute. reflexivity.
    + by rewrite H.
Defined.




(** ** Configuration, relay and terminator: further properties *)

(** X5. [_load_config] never raises on a parsed object: the four optional
    keys are filled with their defaults when absent, the two flags become
    booleans, every other key is left as given; and resolving a resolved
    configuration changes nothing. *)
Theorem load_config_defaults (raw : gmap string value) :
  ∃ config,
    _load_config raw = Ok config ∧
    config !! "build_target" =
      Some (default (VStr "DEBUG") (raw !! "build_target")) ∧
    config !! "qemu_path" = Some (default (VStr "") (raw !! "qemu_path")) ∧
    (∃ b, config !! "no_build" = Some (VBool b) ∧
          (raw !! "no_build" = None → b = false)) ∧
    (∃ b, config !! "shutdown_after_run" = Some (VBool b) ∧
          (raw !! "shutdown_after_run" = None → b = false)) ∧
    (∀ k, k ∉ _DEFAULTS.*1 → config !! k = raw !! k) ∧
    _load_config config = Ok config.
Proof.
  destruct (load_config_lookup raw)
    as (config & Hc & Hnb & Hsar & Hbt & Hqp & Hother).
  exists config. split; [done|]. split; [done|]. split; [done|].
  split; [eexists; split; [exact Hnb|by intros ->]|].
  split; [eexists; split; [exact Hsar|by intros ->]|].
  split; [done|].
  destruct (load_config_lookup config)
    as (config' & Hc' & Hnb' & Hsar' & Hbt' & Hqp' & Hother').
  rewrite Hc'. f_equal. apply map_eq. intros k.
  destruct (decide (k ∈ _DEFAULTS.*1)) as [Hin|Hout].
  - cbn in Hin.
    repeat (apply elem_of_cons in Hin as [->|Hin]).
    + by rewrite Hbt', Hbt.
    + by rewrite Hqp', Hqp.
    + by rewrite Hnb', Hnb.
    + by rewrite Hsar', Hsar.
    + by apply elem_of_nil in Hin.
  - by apply Hother'.
Qed.

(** X6. With only the required keys given, the command line is the
    interpreter, the script, the six flags with their values (the build
    target being [DEBUG]) and [--headless], nothing else. *)
Theorem main_cmd_default_options h (raw : gmap string value) script
    fw dxe pl rom tc :
  raw !! "fw_patch_repo" = Some fw →
  raw !! "patina_dxe_core_repo" = Some dxe →
  raw !! "platform" = Some pl →
  raw !! "pre_compiled_rom" = Some rom →
  raw !! "toolchain" = Some tc →
  Forall (fun k => raw !! k = None) _DEFAULTS.*1 →
  ∃ config,
    _load_config raw = Ok config ∧
    main_cmd h config script =
      Ok [ VStr (sys_executable h); VStr script;
           VStr "--build-target"; VStr "DEBUG";
           VStr "--fw-patch-repo"; fw;
           VStr "--patina-dxe-core-repo"; dxe;
           VStr "--platform"; pl;
           VStr "--pre-compiled-rom"; rom;
           VStr "--toolchain"; tc;
           VStr "--headless" ].
Proof.
  intros Hfw Hdxe Hpl Hrom Htc Hnone.
  cbn in Hnone.
  apply Forall_cons in Hnone as [Hbt0 Hnone].
  apply Forall_cons in Hnone as [Hqp0 Hnone].
  apply Forall_cons in Hnone as [Hnb0 Hnone].
  apply Forall_cons in Hnone as [Hsar0 _].
  destruct (load_config_lookup raw)
    as (config & Hc & Hnb & Hsar & Hbt & Hqp & Hother).
  exists config. split; [done|].
  rewrite Hbt0 in Hbt. rewrite Hqp0 in Hqp. rewrite Hnb0 in Hnb.
  rewrite Hsar0 in Hsar. cbn [default from_option id] in *.
  rewrite (main_cmd_closed h config script (VStr "DEBUG") fw dxe pl rom tc);
    try done;
    try (rewrite Hother; [done|];
         cbn; intros Hin;
         repeat (apply elem_of_cons in Hin as [Hin|Hin]; [discriminate Hin|]);
         by apply elem_of_nil in Hin).
  unfold get. rewrite Hqp, Hnb, Hsar. reflexivity.
Qed.

Lemma main_cmd_default_options_witness :
  ∃ config,
    _load_config (delete "shutdown_after_run" Examples.sample_raw)
      = Ok config ∧
    main_cmd Examples.posix config "run.py" =
      Ok [ VStr "/usr/bin/python3"; VStr "run.py";
           VStr "--build-target"; VStr "DEBUG";
           VStr "--fw-patch-repo"; VStr "fw";
           VStr "--patina-dxe-core-repo"; VStr "dxe";
           VStr "--platform"; VStr "Q35";
           VStr "--pre-compiled-rom"; VStr "rom.fd";
           VStr "--toolchain"; VStr "GCC5";
           VStr "--headless" ].
Proof.
  apply (main_cmd_default_options Examples.posix
           (delete "shutdown_after_run" Examples.sample_raw) "run.py").
  - vm_compute. reflexivity.
  - vm_compute. reflexivity.
  - vm_compute. reflexivity.
  - vm_compute. reflexivity.
  - vm_compute. reflexivity.
  - repeat constructor; vm_compute; reflexivity.
Defined.

(** X7. A required key that is missing makes the command-line composition
    raise [KeyError] for the first missing one, in the order the flags are
    written. *)
Theorem main_cmd_missing_key h (config : gmap string value) script
    before key after :
  "build_target" :: required_keys = before ++ key :: after →
  Forall (fun k => is_Some (config !! k)) before →
  config !! key = None →
  main_cmd h config script = Raise (KeyError key).
Proof.
  intros Hkeys Hbefore Hkey. unfold required_keys in Hkeys.
  unfold main_cmd, getitem.
  destruct before as [|k1 before]; simplify_eq/=; [by rewrite Hkey|].
  apply Forall_cons in Hbefore as [[v1 ->] Hbefore]. cbn.
  destruct before as [|k2 before]; simplify_eq/=; [by rewrite Hkey|].
  apply Forall_cons in Hbefore as [[v2 ->] Hbefore]. cbn.
  destruct before as [|k3 before]; simplify_eq/=; [by rewrite Hkey|].
  apply Forall_cons in Hbefore as [[v3 ->] Hbefore]. cbn.
  destruct before as [|k4 before]; simplify_eq/=; [by rewrite Hkey|].
  apply Forall_cons in Hbefore as [[v4 ->] Hbefore]. cbn.
  destruct before as [|k5 before]; simplify_eq/=; [by rewrite Hkey|].
  apply Forall_cons in Hbefore as [[v5 ->] Hbefore]. cbn.
  destruct before as [|k6 before]; simplify_eq/=; [by rewrite Hkey|].
  destruct before; discriminate.
Qed.

Lemma main_cmd_missing_key_witness :
  main_cmd Examples.posix
    (<["build_target" := VStr "DEBUG"]>
       (delete "platform" Examples.sample_raw)) "run.py"
  = Raise (KeyError "platform").
Proof.
  apply (main_cmd_missing_key Examples.posix _ "run.py"
           ["build_target"; "fw_patch_repo"; "patina_dxe_core_repo"]
           "platform" ["pre_compiled_rom"; "toolchain"]).
  - reflexivity.
  - repeat constructor; vm_compute; eauto.
  - vm_compute. reflexivity.
Defined.

Lemma payload_app a b : payload (a ++ b) = payload a +:+ payload b.
Proof.
  induction a as [|[data|] a IH]; cbn [payload app]; [done| |done].
  by rewrite IH, append_assoc.
Qed.

Lemma payload_relayed lines : payload (relayed lines) = String.concat "" lines.
Proof.
  induction lines as [|line lines IH]; [done|].
  rewrite concat_cons_empty. unfold relayed in *. cbn [flat_map app payload].
  by rewrite IH.
Qed.

(** X8. The relay is byte-faithful: on open handles the bytes written to
    the log sink, and to the mirror when there is one, are what the sink
    had received before followed by the whole content of the stream. *)
Theorem stream_reader_bytes content log fwd :
  open_sink log →
  (∀ k, fwd = Some k → open_sink k) →
  ∃ st' log' fwd',
    _stream_reader {| unread := content; stream_closed := false |} log fwd =
      Ok (st', log', fwd') ∧
    payload (sink_events log') = payload (sink_events log) +:+ content ∧
    match fwd with
    | Some k => ∃ k', fwd' = Some k' ∧
                      payload (sink_events k') =
                        payload (sink_events k) +:+ content
    | None => fwd' = None
    end.
Proof.
  intros Hlog Hfwd.
  destruct (relay_loop_open content log fwd Hlog Hfwd)
    as (log' & fwd' & Hloop & _ & Hev & Hmirror).
  unfold _stream_reader. rewrite Hloop.
  cbn [mbind result_bind mret result_ret].
  eexists _, log', fwd'. split; [reflexivity|]. split.
  - by rewrite Hev, payload_app, payload_relayed, split_lines_concat.
  - destruct fwd as [k|]; [|done].
    destruct Hmirror as (k' & -> & _ & Hk'). exists k'. split; [done|].
    by rewrite Hk', payload_app, payload_relayed, split_lines_concat.
Qed.

Lemma stream_reader_bytes_witness :
  ∃ st' log' fwd',
    _stream_reader
      {| unread := "ab" +:+ nl +:+ "c"; stream_closed := false |}
      {| sink_events := [Write "x"]; sink_closed := false |} None =
      Ok (st', log', fwd') ∧
    payload (sink_events log') = "x" +:+ ("ab" +:+ nl +:+ "c").
Proof.
  destruct (stream_reader_bytes ("ab" +:+ nl +:+ "c")
              {| sink_events := [Write "x"]; sink_closed := false |} None)
    as (st' & log' & fwd' & H1 & H2 & _).
  - reflexivity.
  - intros k [=].
  - exists st', log', fwd'. split; [exact H1 | exact H2].
Defined.

(** X9. What the relay does on closed handles: reading a stream that is
    already closed raises [ValueError]; so does writing the first line to a
    closed log file or a closed mirror; but at end-of-stream nothing is
    written, and an empty stream is relayed without error whatever the
    state of the sinks. *)
Theorem stream_reader_closed_handles content log fwd :
  _stream_reader {| unread := content; stream_closed := true |} log fwd
  = Raise ValueError ∧
  (content ≠ "" → sink_closed log = true →
   _stream_reader {| unread := content; stream_closed := false |} log fwd
   = Raise ValueError) ∧
  (content ≠ "" → sink_closed log = false →
   (∃ k, fwd = Some k ∧ sink_closed k = true) →
   _stream_reader {| unread := content; stream_closed := false |} log fwd
   = Raise ValueError) ∧
  _stream_reader {| unread := ""; stream_closed := false |} log fwd
  = Ok ({| unread := ""; stream_closed := true |}, log, fwd).
Proof.
  unfold _stream_reader. split; [|split; [|split]].
  - rewrite relay_loop_step. reflexivity.
  - intros Hne Hclosed. rewrite relay_loop_step. unfold readline.
    cbn [stream_closed unread].
    destruct (take_line_split content Hne) as [Hline _].
    destruct (take_line content) as [line rest]. cbn [fst] in Hline.
    destruct (String.eqb_spec line ""); [done|].
    unfold relay_line, sink_write. by rewrite Hclosed.
  - intros Hne Hopen (k & -> & Hk). rewrite relay_loop_step. unfold readline.
    cbn [stream_closed unread].
    destruct (take_line_split content Hne) as [Hline _].
    destruct (take_line content) as [line rest]. cbn [fst] in Hline.
    destruct (String.eqb_spec line ""); [done|].
    unfold relay_line, sink_write, sink_flush. rewrite Hopen. cbn.
    by rewrite Hk.
  - rewrite relay_loop_step. reflexivity.
Qed.

Lemma stream_reader_closed_handles_witness :
  _stream_reader {| unread := "late"; stream_closed := false |}
    {| sink_events := []; sink_closed := true |} None
  = Raise ValueError.
Proof.
  destruct (stream_reader_closed_handles "late"
              {| sink_events := []; sink_closed := true |} None)
    as (_ & H & _).
  apply H; [discriminate | reflexivity].
Defined.

(** X10. Whatever the state of the process, the terminator returns
    normally and makes exactly one request: [SIGKILL] to the child's
    process group, or [taskkill] on [win32]; afterwards that group is not
    alive, no other group is touched, and files, console, handles and
    clock are as before. *)
Theorem kill_process_tree_effect h proc p w :
  handles w !! proc = Some p →
  ∃ w',
    run (_kill_process_tree h proc) w = (Ok tt, w') ∧
    syscalls w' =
      syscalls w ++ [if String.eqb (sys_platform h) "win32"
                     then Taskkill (pid p) else Killpg (pid p) 9] ∧
    (pid p ∉ pgroups w') ∧
    (∀ g, g ≠ pid p → (g ∈ pgroups w' ↔ g ∈ pgroups w)) ∧
    handles w' = handles w ∧ files w' = files w ∧
    console w' = console w ∧ now w' = now w.
Proof.
  intros Hp. rewrite (kill_process_tree_run h proc p w Hp).
  eexists. split; [reflexivity|]. io_red.
  split; [done|]. split.
  - apply not_elem_of_difference. right. by apply elem_of_singleton.
  - split; [|done]. intros g Hg. rewrite elem_of_difference, elem_of_singleton.
    tauto.
Qed.

Lemma kill_process_tree_effect_witness :
  ∃ w',
    run (_kill_process_tree Examples.windows 0%nat)
        (set_pgroups {[7]}
           (set_handles [{| pid := 7; returncode := None |}]
              Examples.fresh_world)) = (Ok tt, w') ∧
    syscalls w' = [] ++ [Taskkill 7].
Proof.
  destruct (kill_process_tree_effect Examples.windows 0%nat
              {| pid := 7; returncode := None |}
              (set_pgroups {[7]}
                 (set_handles [{| pid := 7; returncode := None |}]
                    Examples.fresh_world)))
    as (w' & H1 & H2 & _).
  - reflexivity.
  - exists w'. split; [exact H1 | exact H2].
Defined.





(** ** The diagnostic extractor: further properties *)

Lemma extract_error_sections_fold lines :
  extract_error_sections lines = scan_result (foldl scan_line scan_start lines).
Proof. reflexivity. Qed.

(** X12. A log without a section-start line and without a build-error
    line yields no section; in particular the empty log yields none. *)
Theorem extract_error_sections_clean lines :
  Forall (fun line => re_match SECTION_START_RE line = false
                      ∧ re_search BUILD_ERROR_RE line = false) lines →
  extract_error_sections lines = [].
Proof.
  intros Hclean. rewrite extract_error_sections_fold.
  assert (Hfold : foldl scan_line scan_start lines = scan_start).
  { induction Hclean as [|line lines [Hs Hb] _ IH]; [done|].
    cbn [foldl]. unfold scan_line at 2. rewrite Hs, Hb. exact IH. }
  by rewrite Hfold.
Qed.

Lemma extract_error_sections_clean_witness :
  extract_error_sections ["Compiling patina v1.0"; "Finished dev"] = [].
Proof.
  apply extract_error_sections_clean.
  repeat constructor; vm_compute; reflexivity.
Defined.

Lemma scan_line_count st line :
  in_section st = nonempty (current_section st) →
  in_section (scan_line st line)
    = nonempty (current_section (scan_line st line)) ∧
  ∃ k : nat,
    (length (sections (scan_line st line)) + open_blocks (scan_line st line)
     = length (sections st) + open_blocks st
       + (if is_section_start line then 1 else 0) + k)%nat ∧
    (k ≤ if is_build_error line then 1 else 0)%nat.
Proof.
  intros Hin. unfold scan_line, is_section_start, is_build_error, open_blocks.
  destruct (re_match SECTION_START_RE line) eqn:Hs; cbn [negb andb].
  - split; [done|]. exists 0%nat. cbn [sections current_section nonempty].
    destruct (current_section st); cbn [nonempty];
      rewrite ?length_app; cbn [length]; split; lia.
  - destruct (in_section st) eqn:Hi.
    + destruct (is_continuation line).
      * split; [cbn; by destruct (current_section st)|].
        exists 0%nat. cbn [sections current_section].
        rewrite <- Hin.
        assert (nonempty (current_section st ++ [line]) = true) as ->
          by (by destruct (current_section st)).
        split; [lia|destruct (re_search BUILD_ERROR_RE line); lia].
      * split; [done|]. cbn [sections current_section nonempty].
        rewrite <- Hin.
        destruct (re_search BUILD_ERROR_RE line).
        -- exists 1%nat. rewrite !length_app. cbn [length]. split; lia.
        -- exists 0%nat. rewrite !length_app. cbn [length]. split; lia.
    + destruct (re_search BUILD_ERROR_RE line).
      * split; [done|]. exists 1%nat. cbn [sections current_section].
        rewrite length_app. cbn [length]. split; lia.
      * split; [by rewrite Hi|]. exists 0%nat. split; lia.
Qed.

Lemma scan_lines_count lines :
  ∀ st,
    in_section st = nonempty (current_section st) →
    ∃ k : nat,
      (length (scan_result (foldl scan_line st lines))
       = length (sections st) + open_blocks st
         + length (List.filter is_section_start lines) + k)%nat ∧
      (k ≤ length (List.filter is_build_error lines))%nat.
Proof.
  induction lines as [|line lines IH]; intros st Hin.
  - exists 0%nat. cbn [foldl List.filter length]. unfold scan_result, open_blocks.
    destruct (nonempty (current_section st));
      rewrite ?length_app; cbn [length]; split; lia.
  - cbn [foldl List.filter].
    destruct (scan_line_count st line Hin) as (Hin' & k1 & Hk1 & Hb1).
    destruct (IH (scan_line st line) Hin') as (k2 & Hk2 & Hb2).
    exists (k1 + k2)%nat. rewrite Hk2, Hk1.
    destruct (is_section_start line), (is_build_error line);
      cbn [length]; split; lia.
Qed.

(** X13. The number of sections returned is at least the number of
    section-start lines of the log, each of which opens a section of its
    own, and at most that number plus the number of other lines that match
    the build-error markers. *)
Theorem extract_error_sections_count lines :
  (length (List.filter is_section_start lines)
   ≤ length (extract_error_sections lines)
   ≤ length (List.filter is_section_start lines)
     + length (List.filter is_build_error lines))%nat.
Proof.
  rewrite extract_error_sections_fold.
  destruct (scan_lines_count lines scan_start eq_refl) as (k & Hk & Hb).
  rewrite Hk. cbn. lia.
Qed.

Lemma sections_kept_line st line s :
  s ∈ sections st → s ∈ sections (scan_line st line).
Proof.
  intros Hs. unfold scan_line.
  destruct (re_match SECTION_START_RE line).
  - cbn [sections]. destruct (nonempty (current_section st)); [|done].
    apply elem_of_app. by left.
  - destruct (in_section st).
    + destruct (is_continuation line); [done|]. cbn [sections].
      destruct (re_search BUILD_ERROR_RE line);
        repeat (apply elem_of_app; left); done.
    + destruct (re_search BUILD_ERROR_RE line); [|done].
      cbn [sections]. apply elem_of_app. by left.
Qed.

Lemma sections_kept lines :
  ∀ st s, s ∈ sections st → s ∈ scan_result (foldl scan_line st lines).
Proof.
  induction lines as [|line lines IH]; intros st s Hs.
  - cbn [foldl]. unfold scan_result.
    destruct (nonempty (current_section st)); [|done].
    apply elem_of_app. by left.
  - cbn [foldl]. apply IH. by apply sections_kept_line.
Qed.

Lemma open_block_returned after :
  ∀ st start conts,
    current_section st = start :: conts →
    in_section st = true →
    join nl (start :: conts ++ continuation_run after)
      ∈ scan_result (foldl scan_line st after).
Proof.
  induction after as [|line after IH]; intros st start conts Hcur Hin.
  - cbn [foldl continuation_run]. unfold scan_result.
    rewrite Hcur, app_nil_r. cbn [nonempty].
    apply elem_of_app. right. by apply list_elem_of_singleton.
  - cbn [foldl continuation_run]. unfold is_section_start.
    destruct (re_match SECTION_START_RE line) eqn:Hs; cbn [negb andb].
    + apply sections_kept. unfold scan_line. rewrite Hs. cbn [sections].
      rewrite Hcur, app_nil_r. cbn [nonempty].
      apply elem_of_app. right. by apply list_elem_of_singleton.
    + destruct (is_continuation line) eqn:Hc.
      * rewrite (cons_middle line), app_assoc. apply IH.
        -- unfold scan_line. rewrite Hs, Hin, Hc. cbn [current_section].
           by rewrite Hcur.
        -- unfold scan_line. by rewrite Hs, Hin, Hc.
      * apply sections_kept. unfold scan_line. rewrite Hs, Hin, Hc.
        rewrite Hcur, app_nil_r. cbn [sections].
        destruct (re_search BUILD_ERROR_RE line).
        -- apply elem_of_app. left. apply elem_of_app. right.
           by apply list_elem_of_singleton.
        -- apply elem_of_app. right. by apply list_elem_of_singleton.
Qed.

(** X14. No diagnostic is lost: every line of the log that matches the
    section-start markers is returned as the first line of a section, and
    that section is the whole block, the line joined with all the lines
    that follow it up to the next section start or the first line that is
    not a continuation. *)
Theorem extract_error_sections_complete before start after :
  is_section_start start = true →
  join nl (start :: continuation_run after)
    ∈ extract_error_sections (before ++ start :: after).
Proof.
  intros Hstart. rewrite extract_error_sections_fold, foldl_app.
  cbn [foldl].
  apply (open_block_returned after _ start []).
  - unfold scan_line. unfold is_section_start in Hstart. by rewrite Hstart.
  - unfold scan_line. unfold is_section_start in Hstart. by rewrite Hstart.
Qed.

Lemma extract_error_sections_complete_witness :
  join nl ["warning: unused variable"; "  --> src/main.rs:1:1"]
    ∈ extract_error_sections
        [ "Compiling"; "warning: unused variable";
          "  --> src/main.rs:1:1"; "Finished" ].
Proof.
  apply (extract_error_sections_complete ["Compiling"]
           "warning: unused variable" ["  --> src/main.rs:1:1"; "Finished"]).
  vm_compute. reflexivity.
Defined.

(** ** The regular expressions *)

Lemma append_eq_nil s t : s +:+ t = "" → s = "" ∧ t = "".
Proof.
  destruct s; [rewrite append_nil_l; by intros ->|].
  rewrite append_cons. discriminate.
Qed.

Lemma append_eq_cons s t c u :
  s +:+ t = String c u →
  (s = "" ∧ t = String c u) ∨ (∃ s', s = String c s' ∧ u = s' +:+ t).
Proof.
  destruct s as [|d s]; [rewrite append_nil_l; by left|]. rewrite append_cons.
  intros [= -> <-]. right. eauto.
Qed.

Lemma nullable_lang r : nullable r = true ↔ lang r "".
Proof.
  split.
  - induction r; cbn [nullable]; intros H; try discriminate.
    + constructor.
    + apply andb_true_iff in H as [H1 H2].
      change "" with ("" +:+ ""). constructor; auto.
    + apply orb_true_iff in H as [H|H];
        [apply lang_alt_l | apply lang_alt_r]; auto.
    + constructor.
  - induction r; cbn [nullable]; intros H; inversion H; subst; try done.
    + match goal with E : _ +:+ _ = "" |- _ =>
        apply append_eq_nil in E as [-> ->] end.
      apply andb_true_iff. auto.
    + apply orb_true_iff. auto.
    + apply orb_true_iff. auto.
Qed.

Lemma star_peel r x :
  lang (Star r) x →
  ∀ c s, x = String c s →
    ∃ s1 s2, s = s1 +:+ s2 ∧ lang r (String c s1) ∧ lang (Star r) s2.
Proof.
  intros H. remember (Star r) as R eqn:HR.
  induction H as [| | | | | |r' s1 s2 H1 _ H2 IH2]; try discriminate.
  injection HR as ->. intros c s Hx.
  apply append_eq_cons in Hx as [[-> ->]|(s1' & -> & ->)].
  - by apply IH2.
  - eauto.
Qed.

Lemma deriv_lang c r : ∀ s, lang (deriv c r) s ↔ lang r (String c s).
Proof.
  induction r as [| |p|r1 IH1 r2 IH2|r1 IH1 r2 IH2|r IH]; intros s;
    cbn [deriv].
  - split; intros H; inversion H.
  - split; intros H; inversion H.
  - split; intros H.
    + destruct (p c) eqn:Hp; inversion H; subst. by constructor.
    + inversion H; subst. match goal with E : p c = true |- _ => rewrite E end.
      constructor.
  - split; intros H.
    + assert (Hleft : ∀ s, lang (Cat (deriv c r1) r2) s →
                           lang (Cat r1 r2) (String c s)).
      { intros s' H'. inversion H'; subst. rewrite <- append_cons.
        constructor; [by apply IH1|done]. }
      destruct (nullable r1) eqn:Hn; [|by apply Hleft].
      inversion H; subst; [by apply Hleft|].
      change (String c s) with ("" +:+ String c s).
      constructor; [by apply nullable_lang|by apply IH2].
    + inversion H as [| |? ? s1 s2 H1 H2 Hr Hs| | | |]; subst.
      apply append_eq_cons in Hs as [[-> ->]|(s1' & -> & ->)].
      * apply nullable_lang in H1. rewrite H1.
        apply lang_alt_r. by apply IH2.
      * assert (lang (Cat (deriv c r1) r2) (s1' +:+ s2))
          by (constructor; [by apply IH1|done]).
        destruct (nullable r1); [by apply lang_alt_l|done].
  - split; intros H; inversion H; subst;
      [apply lang_alt_l; by apply IH1 | apply lang_alt_r; by apply IH2
      | apply lang_alt_l; by apply IH1 | apply lang_alt_r; by apply IH2].
  - split; intros H.
    + inversion H; subst. rewrite <- append_cons.
      constructor; [by apply IH|done].
    + destruct (star_peel r _ H c s eq_refl) as (s1 & s2 & -> & H1 & H2).
      constructor; [by apply IH|done].
Qed.

Lemma re_match_lang s :
  ∀ r, re_match r s = true ↔ ∃ p q, s = p +:+ q ∧ lang r p.
Proof.
  induction s as [|c s IH]; intros r; cbn [re_match].
  - rewrite orb_false_r, nullable_lang. split.
    + intros H. by exists "", "".
    + intros (p & q & Hs & Hp). symmetry in Hs.
      by apply append_eq_nil in Hs as [-> _].
  - rewrite orb_true_iff, nullable_lang, IH. split.
    + intros [H|(p & q & -> & Hp)].
      * by exists "", (String c s).
      * exists (String c p), q. split; [done|]. by apply deriv_lang.
    + intros (p & q & Hs & Hp). symmetry in Hs.
      apply append_eq_cons in Hs as [[-> _]|(p' & -> & ->)]; [by left|].
      right. exists p', q. split; [done|]. by apply deriv_lang.
Qed.

Lemma re_search_lang r s :
  re_search r s = true ↔ ∃ a p q, s = a +:+ p +:+ q ∧ lang r p.
Proof.
  induction s as [|c s IH]; cbn [re_search].
  - rewrite orb_false_r, re_match_lang. split.
    + intros (p & q & Hs & Hp). by exists "", p, q.
    + intros (a & p & q & Hs & Hp). symmetry in Hs.
      apply append_eq_nil in Hs as [-> Hs]. eauto.
  - rewrite orb_true_iff, re_match_lang, IH. split.
    + intros [(p & q & Hs & Hp)|(a & p & q & -> & Hp)].
      * by exists "", p, q.
      * by exists (String c a), p, q.
    + intros (a & p & q & Hs & Hp). destruct a as [|d a].
      * rewrite append_nil_l in Hs. left. eauto.
      * rewrite append_cons in Hs. injection Hs as -> ->. right. eauto.
Qed.

(** X15. The matcher computes what the regular expression denotes:
    [re_match] tells whether some prefix of the line is a word of the
    expression, [re_search] whether some part of the line is one. *)
Theorem re_match_search_lang r s :
  (re_match r s = true ↔ ∃ p q, s = p +:+ q ∧ lang r p) ∧
  (re_search r s = true ↔ ∃ a p q, s = a +:+ p +:+ q ∧ lang r p).
Proof. split; [apply re_match_lang | apply re_search_lang]. Qed.

Lemma lang_cat_iff r1 r2 s :
  lang (Cat r1 r2) s ↔ ∃ s1 s2, s = s1 +:+ s2 ∧ lang r1 s1 ∧ lang r2 s2.
Proof.
  split.
  - intros H. inversion H; subst. eauto.
  - intros (s1 & s2 & -> & H1 & H2). by constructor.
Qed.

Lemma lang_alt_iff r1 r2 s : lang (Alt r1 r2) s ↔ lang r1 s ∨ lang r2 s.
Proof.
  split.
  - intros H. inversion H; subst; auto.
  - intros [H|H]; [by apply lang_alt_l | by apply lang_alt_r].
Qed.

Lemma lang_eps_iff s : lang Eps s ↔ s = "".
Proof. split; [intros H; by inversion H | intros ->; constructor]. Qed.

Lemma lang_class_iff p s :
  lang (Class p) s ↔ ∃ c, s = String c "" ∧ p c = true.
Proof.
  split.
  - intros H. inversion H; subst. eauto.
  - intros (c & -> & Hp). by constructor.
Qed.

Lemma lang_lit w s : lang (Lit w) s ↔ s = w.
Proof.
  revert s. induction w as [|c w IH]; intros s; cbn [Lit].
  - apply lang_eps_iff.
  - rewrite lang_cat_iff. unfold Chr. split.
    + intros (s1 & s2 & -> & H1 & H2).
      apply lang_class_iff in H1 as (d & -> & Hd).
      apply Ascii.eqb_eq in Hd as ->. apply IH in H2 as ->. done.
    + intros ->. exists (String c ""), w. split; [done|]. split.
      * apply lang_class_iff. exists c. split; [done|]. apply Ascii.eqb_refl.
      * by apply IH.
Qed.

(** X16. Two of the markers in plain words: a line is the information
    hint exactly when it starts with "For more information about this
    error", and a line matches the build-error markers exactly when it
    contains "[cargo-make] ERROR", "error: build failed" or
    "error: could not compile". *)
Theorem info_and_build_error_markers line :
  (re_match RUSTC_INFO_RE line = true ↔
   ∃ rest, line = "For more information about this error" +:+ rest) ∧
  (re_search BUILD_ERROR_RE line = true ↔
   ∃ before marker rest,
     marker ∈ [ "[cargo-make] ERROR"; "error: build failed";
                "error: could not compile" ] ∧
     line = before +:+ marker +:+ rest).
Proof.
  split.
  - rewrite re_match_lang. unfold RUSTC_INFO_RE. split.
    + intros (p & q & -> & Hp). apply lang_lit in Hp as ->. eauto.
    + intros (rest & ->). eexists _, rest. split; [done|]. by apply lang_lit.
  - rewrite re_search_lang. unfold BUILD_ERROR_RE. split.
    + intros (a & p & q & -> & Hp). exists a, p, q. split; [|done].
      apply lang_alt_iff in Hp as [Hp|Hp]; [apply lang_lit in Hp as ->|].
      { apply elem_of_cons. by left. }
      apply lang_alt_iff in Hp as [Hp|Hp]; apply lang_lit in Hp as ->.
      { apply elem_of_cons. right. apply elem_of_cons. by left. }
      { do 2 (apply elem_of_cons; right). apply elem_of_cons. by left. }
    + intros (a & m & q & Hin & ->). exists a, m, q. split; [done|].
      apply elem_of_cons in Hin as [->|Hin].
      { apply lang_alt_l. by apply lang_lit. }
      apply elem_of_cons in Hin as [->|Hin].
      { apply lang_alt_r, lang_alt_l. by apply lang_lit. }
      apply elem_of_cons in Hin as [->|Hin].
      { apply lang_alt_r, lang_alt_r. by apply lang_lit. }
      by apply elem_of_nil in Hin.
Qed.

Lemma all_chars_app p s t :
  all_chars p (s +:+ t) = all_chars p s && all_chars p t.
Proof.
  induction s as [|c s IH]; [done|].
  rewrite append_cons. cbn [all_chars]. by rewrite IH, andb_assoc.
Qed.

Lemma lang_star_class p s :
  lang (Star (Class p)) s ↔ all_chars p s = true.
Proof.
  split.
  - intros H. remember (Star (Class p)) as R eqn:HR.
    induction H as [| | | | | |r s1 s2 H1 _ H2 IH2]; try discriminate; [done|].
    injection HR as ->. apply lang_class_iff in H1 as (c & -> & Hc).
    rewrite append_cons, append_nil_l. cbn [all_chars].
    by rewrite Hc, IH2.
  - induction s as [|c s IH]; [constructor|]. cbn [all_chars].
    intros H. apply andb_true_iff in H as [Hc Hs].
    change (String c s) with (String c "" +:+ s).
    constructor; [by constructor | by apply IH].
Qed.

Lemma lang_plus_class p s :
  lang (Plus (Class p)) s ↔ s ≠ "" ∧ all_chars p s = true.
Proof.
  unfold Plus. rewrite lang_cat_iff. split.
  - intros (s1 & s2 & -> & H1 & H2).
    apply lang_class_iff in H1 as (c & -> & Hc).
    apply lang_star_class in H2. rewrite append_cons, append_nil_l.
    split; [done|]. cbn [all_chars]. by rewrite Hc, H2.
  - intros [Hne H]. destruct s as [|c s]; [done|]. cbn [all_chars] in H.
    apply andb_true_iff in H as [Hc Hs].
    exists (String c ""), s. split; [done|].
    split; [by constructor | by apply lang_star_class].
Qed.

Lemma lang_opt_iff r s : lang (Opt r) s ↔ lang r s ∨ s = "".
Proof. unfold Opt. by rewrite lang_alt_iff, lang_eps_iff. Qed.

Lemma is_word_or_digit s :
  all_chars (fun c => is_word c || is_digit c) s = all_chars is_word s.
Proof.
  induction s as [|c s IH]; [done|]. cbn [all_chars]. rewrite IH. f_equal.
  unfold is_word. destruct (is_digit c); [done|]. by rewrite orb_false_r.
Qed.

Lemma lang_section_head head :
  lang (Alt
         (Cat (Lit "error")
            (Cat (Opt (Cat (Lit "[E") (Cat (Plus (Class is_digit)) (Lit "]"))))
               (Lit ":")))
         (Cat (Lit "warning")
            (Cat
               (Opt
                  (Cat (Lit "[")
                     (Cat (Plus (Class (fun c => is_word c || is_digit c)))
                        (Lit "]"))))
               (Lit ":")))) head
  ↔ section_head head.
Proof.
  unfold section_head. rewrite lang_alt_iff. split.
  - intros [H|H]; apply lang_cat_iff in H as (s1 & s2 & -> & H1 & H2);
      apply lang_lit in H1 as ->;
      apply lang_cat_iff in H2 as (o & colon & -> & Ho & Hcolon);
      apply lang_lit in Hcolon as ->;
      apply lang_opt_iff in Ho as [Ho| ->].
    + right. left.
      apply lang_cat_iff in Ho as (s1 & s2 & -> & H1 & H2).
      apply lang_lit in H1 as ->.
      apply lang_cat_iff in H2 as (d & s3 & -> & Hd & H3).
      apply lang_lit in H3 as ->. apply lang_plus_class in Hd as [Hne Hd].
      exists d. split; [done|]. split; [done|].
      cbn. by rewrite !append_assoc.
    + by left.
    + do 3 right.
      apply lang_cat_iff in Ho as (s1 & s2 & -> & H1 & H2).
      apply lang_lit in H1 as ->.
      apply lang_cat_iff in H2 as (d & s3 & -> & Hd & H3).
      apply lang_lit in H3 as ->. apply lang_plus_class in Hd as [Hne Hd].
      rewrite is_word_or_digit in Hd.
      exists d. split; [done|]. split; [done|].
      cbn. by rewrite !append_assoc.
    + right. right. by left.
  - intros [-> | [(d & Hne & Hd & ->) | [-> | (n & Hne & Hn & ->)]]].
    + left. apply lang_cat_iff. exists "error", ":". split; [done|].
      split; [by apply lang_lit|]. apply lang_cat_iff. exists "", ":".
      split; [done|]. split; [apply lang_opt_iff; by right|by apply lang_lit].
    + left. apply lang_cat_iff. exists "error", ("[E" +:+ d +:+ "]:").
      split; [done|]. split; [by apply lang_lit|].
      apply lang_cat_iff. exists ("[E" +:+ d +:+ "]"), ":".
      split; [cbn; by rewrite !append_assoc|].
      split; [|by apply lang_lit]. apply lang_opt_iff. left.
      apply lang_cat_iff. exists "[E", (d +:+ "]"). split; [done|].
      split; [by apply lang_lit|]. apply lang_cat_iff. exists d, "]".
      split; [done|]. split; [by apply lang_plus_class|by apply lang_lit].
    + right. apply lang_cat_iff. exists "warning", ":". split; [done|].
      split; [by apply lang_lit|]. apply lang_cat_iff. exists "", ":".
      split; [done|]. split; [apply lang_opt_iff; by right|by apply lang_lit].
    + right. apply lang_cat_iff. exists "warning", ("[" +:+ n +:+ "]:").
      split; [done|]. split; [by apply lang_lit|].
      apply lang_cat_iff. exists ("[" +:+ n +:+ "]"), ":".
      split; [cbn; by rewrite !append_assoc|].
      split; [|by apply lang_lit]. apply lang_opt_iff. left.
      apply lang_cat_iff. exists "[", (n +:+ "]"). split; [done|].
      split; [by apply lang_lit|]. apply lang_cat_iff. exists n, "]".
      split; [done|]. split; [|by apply lang_lit].
      apply lang_plus_class. by rewrite is_word_or_digit.
Qed.

(** X17. The section-start rule in plain words, for a line of ASCII
    characters: the line opens a block exactly when it begins with
    [error:], [error[E<digits>]:], [warning:] or
    [warning[<word characters>]:] (the code not empty) and a white-space
    character follows the colon. *)
Theorem section_start_marker line :
  ascii_text line = true →
  re_match SECTION_START_RE line = true ↔
  ∃ head c rest,
    section_head head ∧ is_space c = true ∧
    line = head +:+ String c rest.
Proof.
  intros _. rewrite re_match_lang. unfold SECTION_START_RE. split.
  - intros (p & q & -> & Hp).
    apply lang_cat_iff in Hp as (head & sp & -> & Hhead & Hsp).
    apply lang_class_iff in Hsp as (c & -> & Hc).
    apply lang_section_head in Hhead.
    exists head, c, q. split; [done|]. split; [done|].
    by rewrite append_assoc.
  - intros (head & c & rest & Hhead & Hc & ->).
    exists (head +:+ String c ""), rest. split.
    + by rewrite append_assoc.
    + apply lang_cat_iff. exists head, (String c ""). split; [done|].
      split; [by apply lang_section_head|by constructor].
Qed.

Lemma section_start_marker_witness :
  ∃ head c rest,
    section_head head ∧ is_space c = true ∧
    "error[E0425]: cannot find value" = head +:+ String c rest.
Proof.
  apply (section_start_marker "error[E0425]: cannot find value").
  - vm_compute. reflexivity.
  - vm_compute. reflexivity.
Defined.

(** ** The error map *)

Lemma add_log_lookup m f a :
  default [] (add_log m f !! a) = default [] (m !! a) ++ snippets_of a [f].
Proof.
  unfold add_log, snippets_of. cbn [flat_map]. rewrite app_nil_r.
  destruct (nonempty (extract_error_sections (splitlines (text f)))).
  - case_bool_decide as Ha; cbn [andb].
    + subst a. by rewrite lookup_insert_eq.
    + rewrite lookup_insert_ne by done. by rewrite app_nil_r.
  - rewrite andb_false_r. by rewrite app_nil_r.
Qed.

Lemma add_log_nonempty m f a :
  (∀ a, m !! a ≠ Some []) → add_log m f !! a ≠ Some [].
Proof.
  intros Hm. unfold add_log.
  destruct (nonempty _); [|apply Hm].
  destruct (decide (artifact_dir f = a)) as [->|Hne].
  - rewrite lookup_insert_eq. intros [= H].
    by apply app_eq_nil in H as [_ ?].
  - rewrite lookup_insert_ne by done. apply Hm.
Qed.

Lemma fold_add_log files :
  ∀ m a,
    (∀ a, m !! a ≠ Some []) →
    default [] (foldl add_log m files !! a)
      = default [] (m !! a) ++ snippets_of a files ∧
    foldl add_log m files !! a ≠ Some [].
Proof.
  induction files as [|f files IH]; intros m a Hm.
  - cbn. rewrite app_nil_r. split; [done|apply Hm].
  - cbn [foldl].
    destruct (IH (add_log m f) a) as [Hl Hne].
    { intros a'. by apply add_log_nonempty. }
    split; [|done]. rewrite Hl, add_log_lookup, <- app_assoc.
    f_equal. unfold snippets_of. cbn [flat_map]. by rewrite app_nil_r.
Qed.

(** X18. The error map has an entry for an artifact directory exactly
    when one of its log files has a section, and the entry then lists one
    snippet for each such log file, in the order of the files; a logs
    directory that does not exist gives the empty map. *)
Theorem build_error_map_entries files a :
  build_error_map None = ∅ ∧
  build_error_map (Some files) !! a =
    match snippets_of a files with
    | [] => None
    | snippets => Some snippets
    end.
Proof.
  split; [done|]. unfold build_error_map.
  destruct (fold_add_log files ∅ a) as [Hl Hne].
  { intros a'. by rewrite lookup_empty. }
  rewrite lookup_empty in Hl. cbn in Hl.
  destruct (foldl add_log ∅ files !! a) as [l|] eqn:E; cbn in Hl.
  - rewrite <- Hl. destruct l; [done|done].
  - by rewrite <- Hl.
Qed.

(** X19. A snippet shows at most 60 lines of diagnostics: when the
    sections of a log make up no more than 60 lines all of them are shown,
    and otherwise the marker of truncation followed by the last 60. *)
Theorem snippet_lines_bounded sections :
  let shown := snippet_lines sections in
  let all := splitlines (join (nl +:+ nl) sections) in
  (length shown ≤ MAX_SNIPPET_LINES + 1)%nat ∧
  ((length all ≤ MAX_SNIPPET_LINES)%nat → shown = all) ∧
  ((MAX_SNIPPET_LINES < length all)%nat →
   ∃ dropped kept,
     all = dropped ++ kept ∧ length kept = MAX_SNIPPET_LINES ∧
     shown = truncated_marker :: kept).
Proof.
  intros shown all. unfold shown, snippet_lines. fold all.
  destruct (Nat.ltb_spec MAX_SNIPPET_LINES (length all)) as [Hlt|Hle].
  - split; [|split; [lia|]].
    + cbn [length]. rewrite length_drop. lia.
    + intros _.
      exists (take (length all - MAX_SNIPPET_LINES) all),
             (drop (length all - MAX_SNIPPET_LINES) all).
      split; [by rewrite take_drop|]. split; [|done].
      rewrite length_drop. lia.
  - split; [lia|]. split; [done|lia].
Qed.

Lemma no_linebreak_cons c l :
  is_linebreak c = false →
  all_chars (fun c => negb (is_linebreak c)) l = true →
  all_chars (fun c => negb (is_linebreak c)) (String c l) = true.
Proof. intros Hc Hl. cbn [all_chars]. by rewrite Hc, Hl. Qed.

Lemma splitlines_all_chars p s :
  all_chars p s = true →
  Forall (fun line => all_chars p line = true) (splitlines s).
Proof.
  remember (String.length s) as n eqn:Hn. revert s Hn.
  induction n as [n IH] using lt_wf_ind. intros s Hn Hs.
  assert (IHs : ∀ r, (String.length r < String.length s)%nat →
            all_chars p r = true →
            Forall (fun line => all_chars p line = true) (splitlines r)).
  { intros r Hr. apply (IH (String.length r)); [lia|done]. }
  clear IH. subst n.
  destruct s as [|c r]; [apply Forall_nil_2|].
  cbn [splitlines String.length all_chars] in *.
  apply andb_true_iff in Hs as [Hc Hr].
  destruct (is_linebreak c).
  - apply Forall_cons. split; [done|].
    destruct r as [|d r']; [apply Forall_nil_2|].
    cbn [all_chars] in Hr. apply andb_true_iff in Hr as [Hd Hr'].
    destruct (Ascii.eqb c "013" && Ascii.eqb d "010").
    + apply IHs; [cbn; lia|done].
    + apply IHs; [cbn; lia|]. cbn [all_chars]. by rewrite Hd, Hr'.
  - pose proof (IHs r ltac:(lia) Hr) as H.
    destruct (splitlines r) as [|l ls].
    + apply Forall_cons. split; [|apply Forall_nil_2].
      cbn [all_chars]. by rewrite Hc.
    + apply Forall_cons in H as [Hl Hls].
      apply Forall_cons. split; [|done]. cbn [all_chars]. by rewrite Hc, Hl.
Qed.

(** X20. On a text of ASCII characters [splitlines] gives lines of ASCII
    characters free of line boundaries, so every line that reaches
    [extract_error_sections] is a single line, and it gives no more lines
    than the text has characters. *)
Theorem splitlines_lines s :
  ascii_text s = true →
  Forall (fun line =>
            all_chars (fun c => negb (is_linebreak c)) line = true
            ∧ ascii_text line = true)
    (splitlines s) ∧
  (length (splitlines s) ≤ String.length s)%nat.
Proof.
  intros Hascii. apply splitlines_all_chars in Hascii.
  assert (H : Forall (fun line =>
                        all_chars (fun c => negb (is_linebreak c)) line = true)
                (splitlines s) ∧
              (length (splitlines s) ≤ String.length s)%nat).
  { clear Hascii.
    remember (String.length s) as n eqn:Hn. revert s Hn.
    induction n as [n IH] using lt_wf_ind. intros s Hn.
    assert (IHs : ∀ r, (String.length r < String.length s)%nat →
              Forall (fun line =>
                        all_chars (fun c => negb (is_linebreak c)) line = true)
                (splitlines r) ∧
              (length (splitlines r) ≤ String.length r)%nat).
    { intros r Hr. apply (IH (String.length r)); [lia|done]. }
    clear IH. subst n.
    destruct s as [|c r]; [cbn; split; [apply Forall_nil_2|lia]|].
    cbn [splitlines String.length] in *.
    destruct (is_linebreak c) eqn:Hc.
    - destruct r as [|d r'].
      + split; [apply Forall_cons; split; [reflexivity|apply Forall_nil_2]
               |cbn; lia].
      + destruct (Ascii.eqb c "013" && Ascii.eqb d "010").
        * destruct (IHs r') as [H1 H2]; [cbn; lia|].
          split; [by apply Forall_cons|cbn [length String.length]; lia].
        * destruct (IHs (String d r')) as [H1 H2]; [cbn; lia|].
          split; [by apply Forall_cons|cbn [length String.length] in *; lia].
    - destruct (IHs r) as [H1 H2]; [cbn; lia|].
      destruct (splitlines r) as [|l ls].
      + split; [|cbn; lia]. apply Forall_cons. split; [|apply Forall_nil_2].
        cbn. by rewrite Hc.
      + apply Forall_cons in H1 as [Hl Hls].
        split; [|cbn [length] in *; lia].
        apply Forall_cons. split; [by apply no_linebreak_cons|done]. }
  destruct H as [Hlines Hlen]. split; [|done].
  apply Forall_forall. intros line Hin.
  rewrite Forall_forall in Hlines. rewrite Forall_forall in Hascii.
  split; [by apply Hlines | by apply Hascii].
Qed.

Lemma splitlines_lines_witness :
  splitlines ("error: x" +:+ nl +:+ " --> src/lib.rs" +:+ nl)
    = ["error: x"; " --> src/lib.rs"] ∧
  (length (splitlines ("error: x" +:+ nl +:+ " --> src/lib.rs" +:+ nl))
   ≤ String.length ("error: x" +:+ nl +:+ " --> src/lib.rs" +:+ nl))%nat.
Proof.
  split; [vm_compute; reflexivity|].
  apply (splitlines_lines ("error: x" +:+ nl +:+ " --> src/lib.rs" +:+ nl)).
  vm_compute. reflexivity.
Defined.

Lemma snippet_lines_bounded_witness :
  ∃ dropped kept,
    splitlines (join (nl +:+ nl) (repeat "error: x" 40)) = dropped ++ kept ∧
    length kept = 60%nat ∧
    snippet_lines (repeat "error: x" 40) = truncated_marker :: kept.
Proof.
  destruct (snippet_lines_bounded (repeat "error: x" 40)) as (_ & _ & H).
  apply H. vm_compute. lia.
Defined.
